(** * Reachy recognizer: the coordination core

    A shallow embedding of the cooperating components of the repository
    and the properties checked about them:

    - [Events]: [src/events/event_system.py], the debouncing tracker
      ([EventManager.process_recognition_results]), its callbacks,
      history, statistics and reset;
    - [Behaviors]: [src/behaviors/behavior_module.py], the priority
      scheduler ([BehaviorManager.execute_behavior]), the worker thread
      and the predefined behaviors;
    - [Coordination]: [src/coordination/greeting_coordinator.py], the
      greeting coordinator ([GreetingCoordinator]);
    - [Idle]: [src/behaviors/idle_manager.py], the idle manager
      ([IdleManager]).

    Python [int] is [Z]; Python [float] is [Q] (comparisons, sums,
    differences, a division and rounding to two places are taken);
    [str] is [string]; the insertion-ordered [dict] of tracked persons is
    an association list kept in insertion order; a [set] of names is a
    [gset string]. *)

From stdpp Require Import gmap strings list sorting.
From Stdlib Require Import QArith Qround ZArith.

Open Scope Z_scope.

(* ===================================================================== *)
(** ** Event system *)
(* ===================================================================== *)

Module Events.

(** [class EventType(Enum)] *)
Inductive EventType : Set :=
  | PERSON_RECOGNIZED
  | PERSON_UNKNOWN
  | PERSON_DEPARTED
  | NO_FACES.

#[global] Instance EventType_eq_dec : EqDecision EventType.
Proof. solve_decision. Defined.

(** A bounding box [(top, right, bottom, left)]. *)
Definition BBox : Type := (Z * Z * Z * Z)%type.

(** [@dataclass RecognitionEvent] *)
Record RecognitionEvent : Type := mkEvent {
  event_type : EventType;
  timestamp : Q;
  person_name : string;
  confidence : Q;
  bbox : option BBox;
  frame_number : Z
}.

(** [@dataclass PersonState]; the dataclass defaults are only ever used
    for [departed_frames] and [event_triggered] (see [new_person]). *)
Record PersonState : Type := mkPerson {
  name : string;
  consecutive_frames : Z;
  departed_frames : Z;
  last_confidence : Q;
  last_bbox : option BBox;
  event_triggered : bool
}.

(** [self.accuracy_metrics] *)
Record AccuracyMetrics : Type := mkMetrics {
  true_positives : Z;
  false_positives : Z;
  true_negatives : Z;
  false_negatives : Z;
  unknown_count : Z;
  recognized_count : Z;
  total_events : Z
}.

Definition zero_metrics : AccuracyMetrics := mkMetrics 0 0 0 0 0 0 0.

(** The attributes of [EventManager].  A registered callback is known by
    its id only; [callbacks] keeps, per event type, the ids in
    registration order.  [current_state] is the dict of tracked persons in
    insertion order. *)
Record EventManager : Type := mkManager {
  debounce_frames : Z;
  em_departed_frames : Z;
  max_history : nat;
  event_history : list RecognitionEvent;
  callbacks : list (EventType * list nat);
  current_state : list (string * PersonState);
  frame_count : Z;
  next_callback_id : nat;
  accuracy_metrics : AccuracyMetrics
}.

(** [EventManager.__init__] once the thresholds are known in frames. *)
Definition init (debounce departed : Z) (maxlen : nat) : EventManager :=
  {| debounce_frames := debounce;
     em_departed_frames := departed;
     max_history := maxlen;
     event_history := [];
     callbacks := [(PERSON_RECOGNIZED, []); (PERSON_UNKNOWN, []);
                   (PERSON_DEPARTED, []); (NO_FACES, [])];
     current_state := [];
     frame_count := 0;
     next_callback_id := 0%nat;
     accuracy_metrics := zero_metrics |}.

Definition set_current_state (cs : list (string * PersonState))
    (em : EventManager) : EventManager :=
  {| debounce_frames := debounce_frames em;
     em_departed_frames := em_departed_frames em;
     max_history := max_history em;
     event_history := event_history em;
     callbacks := callbacks em;
     current_state := cs;
     frame_count := frame_count em;
     next_callback_id := next_callback_id em;
     accuracy_metrics := accuracy_metrics em |}.

Definition set_event_history (h : list RecognitionEvent)
    (em : EventManager) : EventManager :=
  {| debounce_frames := debounce_frames em;
     em_departed_frames := em_departed_frames em;
     max_history := max_history em;
     event_history := h;
     callbacks := callbacks em;
     current_state := current_state em;
     frame_count := frame_count em;
     next_callback_id := next_callback_id em;
     accuracy_metrics := accuracy_metrics em |}.

Definition set_frame_count (n : Z) (em : EventManager) : EventManager :=
  {| debounce_frames := debounce_frames em;
     em_departed_frames := em_departed_frames em;
     max_history := max_history em;
     event_history := event_history em;
     callbacks := callbacks em;
     current_state := current_state em;
     frame_count := n;
     next_callback_id := next_callback_id em;
     accuracy_metrics := accuracy_metrics em |}.

Definition set_accuracy_metrics (m : AccuracyMetrics)
    (em : EventManager) : EventManager :=
  {| debounce_frames := debounce_frames em;
     em_departed_frames := em_departed_frames em;
     max_history := max_history em;
     event_history := event_history em;
     callbacks := callbacks em;
     current_state := current_state em;
     frame_count := frame_count em;
     next_callback_id := next_callback_id em;
     accuracy_metrics := m |}.

(** *** The dict of tracked persons *)

(** [self.current_state.get(n)] / [n in self.current_state] *)
Fixpoint lookup_state (n : string) (cs : list (string * PersonState))
    : option PersonState :=
  match cs with
  | [] => None
  | (k, v) :: cs' => if decide (k = n) then Some v else lookup_state n cs'
  end.

(** Mutating the [PersonState] object stored under [n]: the key keeps its
    place in the dict. *)
Fixpoint update_state (n : string) (f : PersonState -> PersonState)
    (cs : list (string * PersonState)) : list (string * PersonState) :=
  match cs with
  | [] => []
  | (k, v) :: cs' =>
      if decide (k = n) then (k, f v) :: cs'
      else (k, v) :: update_state n f cs'
  end.

(** [del self.current_state[n]] *)
Fixpoint delete_state (n : string) (cs : list (string * PersonState))
    : list (string * PersonState) :=
  match cs with
  | [] => []
  | (k, v) :: cs' =>
      if decide (k = n) then cs' else (k, v) :: delete_state n cs'
  end.

(** *** History, callbacks, metrics *)

(** [_add_to_history]: [deque(maxlen=max_history).append]. *)
Definition _add_to_history (e : RecognitionEvent) (em : EventManager)
    : EventManager :=
  let h := event_history em ++ [e] in
  set_event_history (drop (length h - max_history em)%nat h) em.

(** [_last_event_was_not_no_faces] *)
Definition _last_event_was_not_no_faces (em : EventManager) : bool :=
  match last (event_history em) with
  | None => true
  | Some e => bool_decide (event_type e ≠ NO_FACES)
  end.

(** The ids registered for one event type, [self.callbacks[ty]]. *)
Fixpoint callbacks_for (ty : EventType) (cbs : list (EventType * list nat))
    : list nat :=
  match cbs with
  | [] => []
  | (k, ids) :: cbs' => if decide (k = ty) then ids else callbacks_for ty cbs'
  end.

(** [_trigger_callbacks]: every callback registered for the event's type
    is called with the event, in registration order; an exception raised
    by a callback is caught and logged, so the manager's own state never
    depends on what a callback does.  The result is the list of calls. *)
Definition _trigger_callbacks (em : EventManager) (e : RecognitionEvent)
    : list (nat * RecognitionEvent) :=
  map (fun id => (id, e)) (callbacks_for (event_type e) (callbacks em)).

(** [_update_accuracy_metrics] *)
Definition _update_accuracy_metrics (ty : EventType) (em : EventManager)
    : EventManager :=
  let m := accuracy_metrics em in
  let m1 := {| true_positives := true_positives m;
               false_positives := false_positives m;
               true_negatives := true_negatives m;
               false_negatives := false_negatives m;
               unknown_count := unknown_count m;
               recognized_count := recognized_count m;
               total_events := total_events m + 1 |} in
  let m2 :=
    match ty with
    | PERSON_RECOGNIZED =>
        {| true_positives := true_positives m1 + 1;
           false_positives := false_positives m1;
           true_negatives := true_negatives m1;
           false_negatives := false_negatives m1;
           unknown_count := unknown_count m1;
           recognized_count := recognized_count m1 + 1;
           total_events := total_events m1 |}
    | PERSON_UNKNOWN =>
        {| true_positives := true_positives m1;
           false_positives := false_positives m1;
           true_negatives := true_negatives m1 + 1;
           false_negatives := false_negatives m1;
           unknown_count := unknown_count m1 + 1;
           recognized_count := recognized_count m1;
           total_events := total_events m1 |}
    | _ => m1
    end in
  set_accuracy_metrics m2 em.

(** *** [process_recognition_results] *)

(** One tuple of the classifier's output: [(name, confidence, bbox)]. *)
Definition Observation : Type := (string * Q * BBox)%type.

(** The local variables of one call that the loops update, together with
    the manager: the [events] list and the [current_names] set. *)
Record Frame : Type := mkFrame {
  mgr : EventManager;
  events : list RecognitionEvent;
  current_names : gset string
}.

(** The state of a person seen for the first time. *)
Definition new_person (n : string) (c : Q) (b : BBox) : PersonState :=
  {| name := n; consecutive_frames := 1; departed_frames := 0;
     last_confidence := c; last_bbox := Some b; event_triggered := false |}.

(** The four assignments made to a person who is already tracked. *)
Definition seen_again (c : Q) (b : BBox) (s : PersonState) : PersonState :=
  {| name := name s;
     consecutive_frames := consecutive_frames s + 1;
     departed_frames := 0;
     last_confidence := c;
     last_bbox := Some b;
     event_triggered := event_triggered s |}.

Definition set_event_triggered (s : PersonState) : PersonState :=
  {| name := name s;
     consecutive_frames := consecutive_frames s;
     departed_frames := departed_frames s;
     last_confidence := last_confidence s;
     last_bbox := last_bbox s;
     event_triggered := true |}.

(** The two assignments made to a tracked person who is not in the frame. *)
Definition not_seen (s : PersonState) : PersonState :=
  {| name := name s;
     consecutive_frames := 0;
     departed_frames := departed_frames s + 1;
     last_confidence := last_confidence s;
     last_bbox := last_bbox s;
     event_triggered := event_triggered s |}.

Section Call.

(** The arguments of one call: the frame number in use, and the clock,
    [now k] being what [time.time()] returns when the [k]-th event of the
    call is built. *)
Variable fnum : Z.
Variable now : nat -> Q.

(** Body of the first loop, [for name, confidence, bbox in results]. *)
Definition observe (fr : Frame) (r : Observation) : Frame :=
  let '(n, c, b) := r in
  let em := mgr fr in
  let names := {[ n ]} ∪ current_names fr in
  match lookup_state n (current_state em) with
  | Some s =>
      let s1 := seen_again c b s in
      if bool_decide (consecutive_frames s1 = debounce_frames em)
         && negb (event_triggered s1)
      then
        let ty := if decide (n = "unknown"%string) then PERSON_UNKNOWN
                  else PERSON_RECOGNIZED in
        let e := mkEvent ty (now (length (events fr))) n c (Some b) fnum in
        let em1 := set_current_state
                     (update_state n (fun _ => set_event_triggered s1)
                        (current_state em)) em in
        let em2 := _add_to_history e em1 in
        let em3 := _update_accuracy_metrics ty em2 in
        mkFrame em3 (events fr ++ [e]) names
      else
        mkFrame (set_current_state
                   (update_state n (fun _ => s1) (current_state em)) em)
                (events fr) names
  | None =>
      mkFrame (set_current_state
                 (current_state em ++ [(n, new_person n c b)]) em)
              (events fr) names
  end.

(** The second loop, [for name, state in self.current_state.items()], over
    the entries [todo] still to visit.  Each entry is visited once and its
    [PersonState] object is mutated in place, so the loop yields the
    entries as they stand afterwards, next to the frame (history and
    [events]) and the local list [departed_names]. *)
Fixpoint check_departed (todo : list (string * PersonState)) (fr : Frame)
    : list (string * PersonState) * Frame * list string :=
  match todo with
  | [] => ([], fr, [])
  | (n, s) :: todo' =>
      if decide (n ∈ current_names fr) then
        let '(cs, fr', dn) := check_departed todo' fr in
        ((n, s) :: cs, fr', dn)
      else
        let s1 := not_seen s in
        if bool_decide (departed_frames s1 = em_departed_frames (mgr fr))
           && event_triggered s1
        then
          let e := mkEvent PERSON_DEPARTED (now (length (events fr))) n 0%Q
                     None fnum in
          let fr1 := mkFrame (_add_to_history e (mgr fr)) (events fr ++ [e])
                       (current_names fr) in
          let '(cs, fr', dn) := check_departed todo' fr1 in
          ((n, s1) :: cs, fr', n :: dn)
        else
          let '(cs, fr', dn) := check_departed todo' fr in
          ((n, s1) :: cs, fr', dn)
  end.

(** The third loop, [for name in departed_names: del ...]. *)
Definition remove_departed (departed_names : list string)
    (cs : list (string * PersonState)) : list (string * PersonState) :=
  foldl (fun acc n => delete_state n acc) cs departed_names.

(** The last block, the [NO_FACES] check. *)
Definition check_no_faces (results : list Observation) (fr : Frame)
    : Frame :=
  let em := mgr fr in
  if bool_decide (length results = 0%nat)
     && bool_decide (length (current_state em) = 0%nat)
  then
    if bool_decide (frame_count em = 1) || _last_event_was_not_no_faces em
    then
      let e := mkEvent NO_FACES (now (length (events fr))) ""%string 0%Q
                 None fnum in
      mkFrame (_add_to_history e em) (events fr ++ [e]) (current_names fr)
    else fr
  else fr.

(** Everything after the frame number is settled. *)
Definition process_frame (em : EventManager) (results : list Observation)
    : Frame :=
  let fr1 := foldl observe (mkFrame em [] ∅) results in
  let '(cs, fr2, departed_names) :=
    check_departed (current_state (mgr fr1)) fr1 in
  let fr3 :=
    mkFrame (set_current_state (remove_departed departed_names cs) (mgr fr2))
            (events fr2) (current_names fr2) in
  check_no_faces results fr3.

End Call.

(** [EventManager.process_recognition_results(results, frame_number)]:
    the manager after the call and the returned list of events. *)
Definition process_recognition_results (em : EventManager)
    (results : list Observation) (frame_number : option Z)
    (now : nat -> Q) : EventManager * list RecognitionEvent :=
  let '(em0, fnum) :=
    match frame_number with
    | None => (set_frame_count (frame_count em + 1) em, frame_count em + 1)
    | Some n => (em, n)
    end in
  let fr := process_frame fnum now em0 results in
  (mgr fr, events fr).

Definition set_callbacks (cbs : list (EventType * list nat)) (next : nat)
    (em : EventManager) : EventManager :=
  {| debounce_frames := debounce_frames em;
     em_departed_frames := em_departed_frames em;
     max_history := max_history em;
     event_history := event_history em;
     callbacks := cbs;
     current_state := current_state em;
     frame_count := frame_count em;
     next_callback_id := next;
     accuracy_metrics := accuracy_metrics em |}.

(** [add_callback(event_type, callback_fn)]: the manager afterwards and
    the returned callback id. *)
Definition add_callback (ty : EventType) (em : EventManager)
    : EventManager * nat :=
  let id := next_callback_id em in
  (set_callbacks
     (map (fun '(k, ids) => if decide (k = ty) then (k, ids ++ [id])
                            else (k, ids)) (callbacks em))
     (S id) em,
   id).

(** [remove_callback(callback_id)]: the first registration of the id, in
    the order of the event types, is dropped. *)
Fixpoint remove_id (id : nat) (ids : list nat) : option (list nat) :=
  match ids with
  | [] => None
  | i :: ids' =>
      if decide (i = id) then Some ids'
      else cons i <$> remove_id id ids'
  end.

Fixpoint remove_from (id : nat) (cbs : list (EventType * list nat))
    : option (list (EventType * list nat)) :=
  match cbs with
  | [] => None
  | (k, ids) :: cbs' =>
      match remove_id id ids with
      | Some ids' => Some ((k, ids') :: cbs')
      | None => cons (k, ids) <$> remove_from id cbs'
      end
  end.

Definition remove_callback (id : nat) (em : EventManager)
    : EventManager * bool :=
  match remove_from id (callbacks em) with
  | Some cbs => (set_callbacks cbs (next_callback_id em) em, true)
  | None => (em, false)
  end.


(** *** Runs of the sensing loop *)

(** One call of the sensing loop: the results, the [frame_number]
    argument and the clock of the call. *)
Definition Cycle : Type := (list Observation * option Z * (nat -> Q))%type.

(** The manager after a series of calls, and the events of each call. *)
Fixpoint run (em : EventManager) (cycles : list Cycle)
    : EventManager * list (list RecognitionEvent) :=
  match cycles with
  | [] => (em, [])
  | (results, fn, now) :: cycles' =>
      let '(em1, evs) := process_recognition_results em results fn now in
      let '(em2, rest) := run em1 cycles' in
      (em2, evs :: rest)
  end.

(** The name of an observation, and how often a name is observed in the
    results of one call. *)
Definition obs_name (r : Observation) : string := fst (fst r).

Definition sightings (n : string) (results : list Observation) : nat :=
  length (List.filter (fun r => bool_decide (obs_name r = n)) results).

(** The announce events ([PERSON_RECOGNIZED], or [PERSON_UNKNOWN] for the
    name "unknown"), the [PERSON_DEPARTED] events and the [NO_FACES]
    events in a list of events. *)
Definition is_announce (n : string) (e : RecognitionEvent) : bool :=
  (bool_decide (event_type e = PERSON_RECOGNIZED)
   || bool_decide (event_type e = PERSON_UNKNOWN))
  && bool_decide (person_name e = n).

Definition is_departure (n : string) (e : RecognitionEvent) : bool :=
  bool_decide (event_type e = PERSON_DEPARTED)
  && bool_decide (person_name e = n).

Definition is_no_faces (e : RecognitionEvent) : bool :=
  bool_decide (event_type e = NO_FACES).

Definition announces (n : string) (evs : list RecognitionEvent) : nat :=
  length (List.filter (is_announce n) evs).

Definition departures (n : string) (evs : list RecognitionEvent) : nat :=
  length (List.filter (is_departure n) evs).

Definition no_faces_events (evs : list RecognitionEvent) : nat :=
  length (List.filter is_no_faces evs).

(** A dict has each key once, and the counters of a tracked person are
    never negative: they start at 0 or 1 and are only reset to 0 or
    incremented. *)
Definition wf_person (s : PersonState) : Prop :=
  0 ≤ consecutive_frames s ∧ 0 ≤ departed_frames s.

Definition wf (em : EventManager) : Prop :=
  NoDup (map fst (current_state em))
  ∧ Forall (fun p => wf_person (snd p)) (current_state em).

Definition same_settings (em em' : EventManager) : Prop :=
  debounce_frames em' = debounce_frames em
  ∧ em_departed_frames em' = em_departed_frames em
  ∧ max_history em' = max_history em
  ∧ frame_count em' = frame_count em
  ∧ callbacks em' = callbacks em
  ∧ next_callback_id em' = next_callback_id em.

(** *** One entry's view of the second loop

    What the second loop does to one entry of the dict, given the names
    seen in the frame, read off [check_departed]: [absent_step] is the
    entry afterwards, [departs] says whether [PERSON_DEPARTED] is emitted
    for it (and the entry deleted by the third loop). *)
Definition absent_step (names : gset string) (p : string * PersonState)
    : string * PersonState :=
  (fst p, if decide (fst p ∈ names) then snd p else not_seen (snd p)).

Definition departs (t : Z) (names : gset string) (p : string * PersonState)
    : bool :=
  bool_decide (fst p ∉ names)
  && bool_decide (departed_frames (snd p) + 1 = t)
  && event_triggered (snd p).

Definition occurrences (n : string) (l : list string) : nat :=
  length (List.filter (fun k => bool_decide (k = n)) l).

(** *** One person's view of a call

    What the first loop does to the entry of one name [n], read off
    [observe]: [see] is one observation of [n], [see_all] the observations
    of [n] among the results in order, counting the announce events. *)
Definition see (d : Z) (n : string) (c : Q) (b : BBox)
    (o : option PersonState) : PersonState * bool :=
  match o with
  | None => (new_person n c b, false)
  | Some s =>
      let s1 := seen_again c b s in
      if bool_decide (consecutive_frames s1 = d) && negb (event_triggered s1)
      then (set_event_triggered s1, true)
      else (s1, false)
  end.

Fixpoint see_all (d : Z) (n : string) (results : list Observation)
    (o : option PersonState) : option PersonState * nat :=
  match results with
  | [] => (o, 0%nat)
  | (m, c, b) :: results' =>
      if decide (m = n) then
        let '(s, fired) := see d n c b o in
        let '(o', k) := see_all d n results' (Some s) in
        (o', ((if fired then 1 else 0) + k)%nat)
      else see_all d n results' o
  end.

(** What the second and third loops do to the entry of a name that is not
    in the frame, and the number of [PERSON_DEPARTED] events for it. *)
Definition miss (t : Z) (o : option PersonState)
    : option PersonState * nat :=
  match o with
  | None => (None, 0%nat)
  | Some s =>
      if bool_decide (departed_frames s + 1 = t) && event_triggered s
      then (None, 1%nat)
      else (Some (not_seen s), 0%nat)
  end.

(** One call seen from one name: its entry afterwards, and the numbers of
    announce and of departure events emitted for it. *)
Definition person_step (d t : Z) (n : string) (results : list Observation)
    (o : option PersonState) : option PersonState * nat * nat :=
  if bool_decide (n ∈ map obs_name results) then
    (fst (see_all d n results o), snd (see_all d n results o), 0%nat)
  else
    (fst (miss t o), 0%nat, snd (miss t o)).

(** The presence counter and the announce flag of an entry that may be
    missing from the dict. *)
Definition tracked_count (o : option PersonState) : Z :=
  match o with Some s => consecutive_frames s | None => 0 end.

Definition announced (o : option PersonState) : bool :=
  match o with Some s => event_triggered s | None => false end.

(** The results of a cycle show the name, show it once, do not show it. *)
Definition seen (n : string) (c : Cycle) : Prop :=
  sightings n (fst (fst c)) ≠ 0%nat.

Definition seen_once (n : string) (c : Cycle) : Prop :=
  sightings n (fst (fst c)) = 1%nat.

Definition unseen (n : string) (c : Cycle) : Prop :=
  sightings n (fst (fst c)) = 0%nat.

(** Just observed: present for at least one frame, absent for none. *)
Definition fresh (s : PersonState) : Prop :=
  0 < consecutive_frames s ∧ departed_frames s = 0.

(** Whether the [i]-th call of a run that shows the name once per call
    announces it, the entry at the start of the run being [o]: the counter
    reaches the threshold in that call, the flag is not set, and the entry
    was not created by that very call. *)
Definition fires_at (d : Z) (o : option PersonState) (i : nat) : bool :=
  negb (announced o)
  && bool_decide (tracked_count o + Z.of_nat i + 1 = d)
  && (bool_decide (is_Some o) || bool_decide (i ≠ 0%nat)).

(** The announce events an entry can still get before it is deleted. *)
Definition slack (o : option PersonState) : nat :=
  if announced o then 0%nat else 1%nat.

(** *** Queries and reset *)

(** [l[:count]], a Python slice: a negative [count] counts from the
    end. *)
Definition slice_to {A} (count : Z) (l : list A) : list A :=
  if bool_decide (0 ≤ count) then take (Z.to_nat count) l
  else take (length l - Z.to_nat (- count)) l.

(** [get_recent_events(count)] *)
Definition get_recent_events (em : EventManager) (count : option Z)
    : list RecognitionEvent :=
  let events := reverse (event_history em) in
  match count with
  | None => events
  | Some c => slice_to c events
  end.

(** The members of [EventType], in definition order. *)
Definition all_event_types : list EventType :=
  [PERSON_RECOGNIZED; PERSON_UNKNOWN; PERSON_DEPARTED; NO_FACES].

Definition count_events (ty : EventType) (h : list RecognitionEvent) : nat :=
  length (List.filter (fun e => bool_decide (event_type e = ty)) h).

(** The dict returned by [get_stats]; the two inner dicts are keyed by
    event type, in the order in which Python builds them. *)
Record EventStats : Type := mkEventStats {
  stats_frame_count : Z;
  event_history_size : nat;
  currently_tracked : nat;
  tracked_people : list string;
  event_counts : list (EventType * nat);
  callback_counts : list (EventType * nat)
}.

(** [get_stats()] *)
Definition get_stats (em : EventManager) : EventStats :=
  {| stats_frame_count := frame_count em;
     event_history_size := length (event_history em);
     currently_tracked := length (current_state em);
     tracked_people := map fst (current_state em);
     event_counts :=
       map (fun ty => (ty, count_events ty (event_history em)))
         all_event_types;
     callback_counts :=
       map (fun '(k, ids) => (k, length ids)) (callbacks em) |}.

(** [round(x)] to an integer, ties to the even neighbour, and
    [round(x, 2)]. *)
Definition round_half_even (q : Q) : Z :=
  let f := Qfloor q in
  match (q - inject_Z f ?= 1 # 2)%Q with
  | Lt => f
  | Gt => f + 1
  | Eq => if Z.even f then f else f + 1
  end.

Definition round2 (q : Q) : Q :=
  (inject_Z (round_half_even (q * 100)) / 100)%Q.

(** The dict returned by [get_accuracy_report]: the short one when no
    event has been counted, the long one otherwise. *)
Inductive AccuracyReport : Type :=
  | EmptyReport (accuracy : Q) (total recognized unknown : Z)
  | FullReport (accuracy : Q) (total recognized unknown : Z)
      (tp fp tn fn : Z).

(** [get_accuracy_report()] *)
Definition get_accuracy_report (em : EventManager) : AccuracyReport :=
  let m := accuracy_metrics em in
  let total := total_events m in
  if bool_decide (total = 0) then EmptyReport 0 0 0 0
  else
    let correct := true_positives m + true_negatives m in
    let accuracy :=
      if bool_decide (0 < total)
      then (inject_Z correct / inject_Z total * 100)%Q else 0%Q in
    FullReport (round2 accuracy) total (recognized_count m) (unknown_count m)
      (true_positives m) (false_positives m) (true_negatives m)
      (false_negatives m).

Definition report_accuracy (r : AccuracyReport) : Q :=
  match r with
  | EmptyReport a _ _ _ => a
  | FullReport a _ _ _ _ _ _ _ => a
  end.

(** [reset()] *)
Definition reset (em : EventManager) : EventManager :=
  {| debounce_frames := debounce_frames em;
     em_departed_frames := em_departed_frames em;
     max_history := max_history em;
     event_history := [];
     callbacks := callbacks em;
     current_state := [];
     frame_count := 0;
     next_callback_id := next_callback_id em;
     accuracy_metrics := zero_metrics |}.

(** *** Notions used to state properties of the above *)

(** What a [deque(maxlen=m)] holding [l] keeps. *)
Definition keep_last {A} (m : nat) (l : list A) : list A :=
  drop (length l - m) l.

(** The number a call stamps on its events. *)
Definition event_label (em : EventManager) (frame_number : option Z) : Z :=
  match frame_number with
  | Some n => n
  | None => frame_count em + 1
  end.

(** Every callback id registered so far, and the condition that ids
    handed out are below the next one. *)
Definition registered (em : EventManager) : list nat :=
  flat_map snd (callbacks em).

Definition callbacks_wf (em : EventManager) : Prop :=
  NoDup (map fst (callbacks em))
  ∧ (forall ty, ty ∈ map fst (callbacks em))
  ∧ NoDup (registered em)
  ∧ Forall (fun id => (id < next_callback_id em)%nat) (registered em).

(** What [add_callback] does to one entry of the dict. *)
Definition register (ty : EventType) (id : nat) (p : EventType * list nat)
    : EventType * list nat :=
  let '(k, ids) := p in if decide (k = ty) then (k, ids ++ [id]) else (k, ids).

(** The history after the events [evs] have been appended one by one. *)
Definition history_after (m : nat) (h evs : list RecognitionEvent)
    : list RecognitionEvent :=
  foldl (fun h e => keep_last m (h ++ [e])) h evs.

(** The counters after the announce events among [evs] have been
    counted. *)
Definition metrics_after (m : AccuracyMetrics) (evs : list RecognitionEvent)
    : AccuracyMetrics :=
  let r := Z.of_nat (count_events PERSON_RECOGNIZED evs) in
  let u := Z.of_nat (count_events PERSON_UNKNOWN evs) in
  {| true_positives := true_positives m + r;
     false_positives := false_positives m;
     true_negatives := true_negatives m + u;
     false_negatives := false_negatives m;
     unknown_count := unknown_count m + u;
     recognized_count := recognized_count m + r;
     total_events := total_events m + r + u |}.

(** The fields of an event as its type demands. *)
Definition event_shape (fnum : Z) (e : RecognitionEvent) : Prop :=
  frame_number e = fnum
  ∧ match event_type e with
    | PERSON_RECOGNIZED => person_name e ≠ "unknown"%string ∧ is_Some (bbox e)
    | PERSON_UNKNOWN => person_name e = "unknown"%string ∧ is_Some (bbox e)
    | PERSON_DEPARTED => confidence e = 0%Q ∧ bbox e = None
    | NO_FACES =>
        person_name e = ""%string ∧ confidence e = 0%Q ∧ bbox e = None
    end.

(** What the loops of one call keep true of the frame, [em] being the
    manager at the start of the call. *)
Definition frame_trace (fnum : Z) (em : EventManager) (fr : Frame) : Prop :=
  same_settings em (mgr fr)
  ∧ event_history (mgr fr)
    = history_after (max_history em) (event_history em) (events fr)
  ∧ accuracy_metrics (mgr fr)
    = metrics_after (accuracy_metrics em) (events fr)
  ∧ Forall (event_shape fnum) (events fr).

(** The counters of [accuracy_metrics] as [_update_accuracy_metrics]
    keeps them. *)
Definition metrics_consistent (m : AccuracyMetrics) : Prop :=
  true_positives m = recognized_count m
  ∧ true_negatives m = unknown_count m
  ∧ false_positives m = 0
  ∧ false_negatives m = 0
  ∧ total_events m = recognized_count m + unknown_count m
  ∧ 0 ≤ recognized_count m
  ∧ 0 ≤ unknown_count m.

End Events.

(* ===================================================================== *)
(** ** Behavior module *)
(* ===================================================================== *)

Module Behaviors.

(** [@dataclass BehaviorAction] *)
Record BehaviorAction : Type := mkAction {
  roll : Q;
  pitch : Q;
  yaw : Q;
  x : Q;
  y : Q;
  z : Q;
  duration : Q;
  blocking : bool
}.

(** [@dataclass Behavior] *)
Record Behavior : Type := mkBehavior {
  name : string;
  actions : list BehaviorAction;
  interruptible : bool;
  priority : Z
}.

(** A [threading.Thread] running [_run_behavior(target)]. *)
Record Thread : Type := mkThread {
  target : Behavior;
  alive : bool
}.

(** The attributes of [BehaviorManager] that the scheduling reads or
    writes ([self.lock] is held throughout [execute_behavior]). *)
Record BehaviorManager : Type := mkManager {
  enable_robot : bool;
  current_behavior : option Behavior;
  behavior_thread : option Thread;
  stop_flag : bool;
  behaviors_executed : Z;
  behaviors_interrupted : Z
}.

(** [BehaviorManager.__init__], "Behavior state" and "Statistics". *)
Definition init (robot : bool) : BehaviorManager :=
  {| enable_robot := robot;
     current_behavior := None;
     behavior_thread := None;
     stop_flag := false;
     behaviors_executed := 0;
     behaviors_interrupted := 0 |}.

(** [stop_current]: the flag is set when the worker is alive; the join
    that follows waits at most two seconds and changes no attribute. *)
Definition stop_current (bm : BehaviorManager) : BehaviorManager :=
  match behavior_thread bm with
  | Some t =>
      if alive t then
        {| enable_robot := enable_robot bm;
           current_behavior := current_behavior bm;
           behavior_thread := behavior_thread bm;
           stop_flag := true;
           behaviors_executed := behaviors_executed bm;
           behaviors_interrupted := behaviors_interrupted bm |}
      else bm
  | None => bm
  end.

(** The tail of [execute_behavior], from "Start new behavior" on. *)
Definition start_behavior (behavior : Behavior) (bm : BehaviorManager)
    : BehaviorManager :=
  {| enable_robot := enable_robot bm;
     current_behavior := Some behavior;
     behavior_thread := Some (mkThread behavior true);
     stop_flag := false;
     behaviors_executed := behaviors_executed bm;
     behaviors_interrupted := behaviors_interrupted bm |}.

Definition count_interrupted (bm : BehaviorManager) : BehaviorManager :=
  {| enable_robot := enable_robot bm;
     current_behavior := current_behavior bm;
     behavior_thread := behavior_thread bm;
     stop_flag := stop_flag bm;
     behaviors_executed := behaviors_executed bm;
     behaviors_interrupted := behaviors_interrupted bm + 1 |}.

(** [BehaviorManager.execute_behavior(behavior)]: the manager after the
    call and the returned boolean. *)
Definition execute_behavior (bm : BehaviorManager) (behavior : Behavior)
    : BehaviorManager * bool :=
  match current_behavior bm with
  | Some cur =>
      if negb (interruptible cur) then (bm, false)
      else if bool_decide (priority behavior ≤ priority cur) then (bm, false)
      else
        (start_behavior behavior (count_interrupted (stop_current bm)), true)
  | None => (start_behavior behavior bm, true)
  end.

(** [is_executing] *)
Definition is_executing (bm : BehaviorManager) : bool :=
  match current_behavior bm with Some _ => true | None => false end.

(** [get_current_behavior] *)
Definition get_current_behavior (bm : BehaviorManager) : option string :=
  name <$> current_behavior bm.

(** The predefined [greeting_wave]. *)
Definition greeting_wave : Behavior :=
  {| name := "greeting_wave";
     actions :=
       [ mkAction 0 0 0 0 0 0 (3 # 10) true;
         mkAction 15 (-5) 0 0 0 0 (3 # 10) true;
         mkAction (-15) (-5) 0 0 0 0 (3 # 10) true;
         mkAction 0 0 0 0 0 0 (3 # 10) true ];
     interruptible := false;
     priority := 8 |}.

(** *** The worker thread *)

(** [==] on the two dataclasses: field by field, floats by value. *)
Definition action_eqb (a b : BehaviorAction) : bool :=
  Qeq_bool (roll a) (roll b) && Qeq_bool (pitch a) (pitch b)
  && Qeq_bool (yaw a) (yaw b) && Qeq_bool (x a) (x b)
  && Qeq_bool (y a) (y b) && Qeq_bool (z a) (z b)
  && Qeq_bool (duration a) (duration b)
  && Bool.eqb (blocking a) (blocking b).

Fixpoint actions_eqb (l1 l2 : list BehaviorAction) : bool :=
  match l1, l2 with
  | [], [] => true
  | a :: l1', b :: l2' => action_eqb a b && actions_eqb l1' l2'
  | _, _ => false
  end.

Definition behavior_eqb (a b : Behavior) : bool :=
  String.eqb (name a) (name b)
  && actions_eqb (actions a) (actions b)
  && Bool.eqb (interruptible a) (interruptible b)
  && Z.eqb (priority a) (priority b).

(** What a worker meets while it runs: whether [stop_flag.is_set()]
    answers [True] when action [i] is about to start, and whether sending
    action [i] to the robot raises. *)
Record WorkerEnv : Type := mkWorkerEnv {
  stop_seen : nat -> bool;
  send_fails : nat -> bool
}.

(** What the worker does to the outside: a head target set on the robot,
    a sleep. *)
Inductive RobotCall : Type :=
  | SetTarget (a : BehaviorAction)
  | SleepFor (seconds : Q).

(** The [for] loop of [_run_behavior], from action number [i] on. *)
Fixpoint run_actions (robot : bool) (w : WorkerEnv) (i : nat)
    (todo : list BehaviorAction) : list RobotCall :=
  match todo with
  | [] => []
  | a :: todo' =>
      if stop_seen w i then []
      else
        let wait := if blocking a then [SleepFor (duration a)] else [] in
        if robot then
          if send_fails w i then []
          else SetTarget a :: wait ++ run_actions robot w (S i) todo'
        else wait ++ run_actions robot w (S i) todo'
  end.

(** The [finally] of [_run_behavior], under the lock: the finished
    behavior is cleared and counted when it is still (equal to) the
    current one.  [own] says whether the thread that ends is the one in
    [behavior_thread]; it is not alive afterwards. *)
Definition finish_worker (own : bool) (behavior : Behavior)
    (bm : BehaviorManager) : BehaviorManager :=
  let thread :=
    match behavior_thread bm with
    | Some t => if own then Some (mkThread (target t) false) else Some t
    | None => None
    end in
  match current_behavior bm with
  | Some cur =>
      if behavior_eqb cur behavior then
        {| enable_robot := enable_robot bm;
           current_behavior := None;
           behavior_thread := thread;
           stop_flag := stop_flag bm;
           behaviors_executed := behaviors_executed bm + 1;
           behaviors_interrupted := behaviors_interrupted bm |}
      else
        {| enable_robot := enable_robot bm;
           current_behavior := current_behavior bm;
           behavior_thread := thread;
           stop_flag := stop_flag bm;
           behaviors_executed := behaviors_executed bm;
           behaviors_interrupted := behaviors_interrupted bm |}
  | None =>
      {| enable_robot := enable_robot bm;
         current_behavior := None;
         behavior_thread := thread;
         stop_flag := stop_flag bm;
         behaviors_executed := behaviors_executed bm;
         behaviors_interrupted := behaviors_interrupted bm |}
  end.

(** [_run_behavior(behavior)]: the manager when the worker has ended, and
    what the worker did to the robot. *)
Definition _run_behavior (w : WorkerEnv) (own : bool) (behavior : Behavior)
    (bm : BehaviorManager) : BehaviorManager * list RobotCall :=
  (finish_worker own behavior bm,
   run_actions (enable_robot bm) w 0 (actions behavior)).

(** The dict returned by [get_stats]. *)
Record BehaviorStats : Type := mkBehaviorStats {
  stats_behaviors_executed : Z;
  stats_behaviors_interrupted : Z;
  currently_executing : bool
}.

(** [get_stats()] *)
Definition get_stats (bm : BehaviorManager) : BehaviorStats :=
  {| stats_behaviors_executed := behaviors_executed bm;
     stats_behaviors_interrupted := behaviors_interrupted bm;
     currently_executing := is_executing bm |}.

(** *** The other predefined behaviors *)

Definition curious_tilt : Behavior :=
  {| name := "curious_tilt";
     actions :=
       [ mkAction (-12) 8 0 0 0 0 (6 # 10) true;
         mkAction (-12) 8 0 0 0 0 (4 # 10) true;
         mkAction 0 0 0 0 0 0 (5 # 10) true ];
     interruptible := true;
     priority := 6 |}.

Definition unknown_greeting : Behavior :=
  {| name := "unknown_greeting";
     actions :=
       [ mkAction 0 0 0 0 0 0 (3 # 10) true;
         mkAction 10 (-8) 0 0 0 0 (5 # 10) true;
         mkAction 10 (-8) 0 0 0 0 (3 # 10) true;
         mkAction 0 (-5) 0 0 0 0 (4 # 10) true;
         mkAction 0 0 0 0 0 0 (3 # 10) true ];
     interruptible := false;
     priority := 7 |}.

Definition unknown_curious : Behavior :=
  {| name := "unknown_curious";
     actions :=
       [ mkAction (-15) 10 0 0 0 0 (5 # 10) true;
         mkAction (-15) 10 0 0 0 0 (5 # 10) true;
         mkAction 15 10 0 0 0 0 (5 # 10) true;
         mkAction 15 10 0 0 0 0 (4 # 10) true;
         mkAction 0 (-8) 0 0 0 0 (5 # 10) true;
         mkAction 0 0 0 0 0 0 (3 # 10) true ];
     interruptible := true;
     priority := 6 |}.

Definition neutral_pose : Behavior :=
  {| name := "neutral";
     actions := [ mkAction 0 0 0 0 0 0 (5 # 10) true ];
     interruptible := true;
     priority := 3 |}.

(** The seven numbers [create_idle_drift] draws with [random.uniform],
    in the order of the calls. *)
Record IdleDraw : Type := mkIdleDraw {
  draw_roll : Q;
  draw_pitch : Q;
  draw_yaw : Q;
  draw_duration : Q;
  draw_roll2 : Q;
  draw_pitch2 : Q;
  draw_yaw2 : Q
}.

(** [create_idle_drift()] *)
Definition create_idle_drift (r : IdleDraw) : Behavior :=
  {| name := "idle_drift";
     actions :=
       [ mkAction (draw_roll r) (draw_pitch r) (draw_yaw r) 0 0 0
           (draw_duration r) false;
         mkAction (draw_roll2 r) (draw_pitch2 r) (draw_yaw2 r) 0 0 0
           (draw_duration r) false ];
     interruptible := true;
     priority := 1 |}.



End Behaviors.

(* ===================================================================== *)
(** ** Greeting coordinator *)
(* ===================================================================== *)

Module Coordination.

Import Events.

(** What the coordinator does to its collaborators, and the two log lines
    of [_execute_greeting] that name the person and the latencies, in the
    order in which they happen. *)
Inductive Call : Type :=
  | LogGreeting (e : RecognitionEvent)
  | Gesture (b : Behaviors.Behavior) (started : bool)
  | Sleep (seconds : Q)
  | SpeakEnhanced (person : string)
  | SpeakLegacy (person : string)
  | LogLatencies (initial total : Q).

(** What the speech call of one greeting does: it speaks, it reports a
    failure in its result (enhanced voice only), or it raises. *)
Inductive SpeechOutcome : Set :=
  | SpeechSpoken
  | SpeechFailed
  | SpeechRaises.

(** What one run of [_execute_greeting] meets outside the coordinator:
    the outcome of the speech call and the two clock differences, in
    milliseconds. *)
Record GreetingEnv : Type := mkEnv {
  speech : SpeechOutcome;
  initial_latency : Q;
  total_latency : Q
}.

(** The attributes of [GreetingCoordinator].  [tts_manager],
    [adaptive_tts] and [greeting_selector] say whether the object is
    there; [min_latency] is [None] for [float('inf')]; [calls] is the
    record of what has been done to the collaborators so far. *)
Record GreetingCoordinator : Type := mkCoordinator {
  event_manager : EventManager;
  behavior_manager : Behaviors.BehaviorManager;
  gesture_speech_delay : Q;
  use_enhanced_voice : bool;
  tts_manager : bool;
  adaptive_tts : bool;
  greeting_selector : bool;
  greeted_persons : gset string;
  greeting_in_progress : bool;
  session_start : Q;
  total_greetings : Z;
  latencies : list Q;
  avg_latency : Q;
  max_latency : Q;
  min_latency : option Q;
  pending_greetings : list RecognitionEvent;
  calls : list Call
}.

(** [GreetingCoordinator.__init__] once the settings are known: the
    enhanced voice system is created when asked for and missing, and the
    callback is registered for [PERSON_RECOGNIZED]. *)
Definition init (em : EventManager) (bm : Behaviors.BehaviorManager)
    (tts adaptive selector : bool) (delay : Q) (enhanced : bool)
    (start : Q) : GreetingCoordinator :=
  {| event_manager := fst (add_callback PERSON_RECOGNIZED em);
     behavior_manager := bm;
     gesture_speech_delay := delay;
     use_enhanced_voice := enhanced;
     tts_manager := tts;
     adaptive_tts := if enhanced then true else adaptive;
     greeting_selector := if enhanced then true else selector;
     greeted_persons := ∅;
     greeting_in_progress := false;
     session_start := start;
     total_greetings := 0;
     latencies := [];
     avg_latency := 0;
     max_latency := 0;
     min_latency := None;
     pending_greetings := [];
     calls := [] |}.

Definition set_greeting_in_progress (b : bool) (gc : GreetingCoordinator)
    : GreetingCoordinator :=
  {| event_manager := event_manager gc;
     behavior_manager := behavior_manager gc;
     gesture_speech_delay := gesture_speech_delay gc;
     use_enhanced_voice := use_enhanced_voice gc;
     tts_manager := tts_manager gc;
     adaptive_tts := adaptive_tts gc;
     greeting_selector := greeting_selector gc;
     greeted_persons := greeted_persons gc;
     greeting_in_progress := b;
     session_start := session_start gc;
     total_greetings := total_greetings gc;
     latencies := latencies gc;
     avg_latency := avg_latency gc;
     max_latency := max_latency gc;
     min_latency := min_latency gc;
     pending_greetings := pending_greetings gc;
     calls := calls gc |}.

Definition set_pending_greetings (l : list RecognitionEvent)
    (gc : GreetingCoordinator) : GreetingCoordinator :=
  {| event_manager := event_manager gc;
     behavior_manager := behavior_manager gc;
     gesture_speech_delay := gesture_speech_delay gc;
     use_enhanced_voice := use_enhanced_voice gc;
     tts_manager := tts_manager gc;
     adaptive_tts := adaptive_tts gc;
     greeting_selector := greeting_selector gc;
     greeted_persons := greeted_persons gc;
     greeting_in_progress := greeting_in_progress gc;
     session_start := session_start gc;
     total_greetings := total_greetings gc;
     latencies := latencies gc;
     avg_latency := avg_latency gc;
     max_latency := max_latency gc;
     min_latency := min_latency gc;
     pending_greetings := l;
     calls := calls gc |}.

Definition set_greeted_persons (g : gset string)
    (gc : GreetingCoordinator) : GreetingCoordinator :=
  {| event_manager := event_manager gc;
     behavior_manager := behavior_manager gc;
     gesture_speech_delay := gesture_speech_delay gc;
     use_enhanced_voice := use_enhanced_voice gc;
     tts_manager := tts_manager gc;
     adaptive_tts := adaptive_tts gc;
     greeting_selector := greeting_selector gc;
     greeted_persons := g;
     greeting_in_progress := greeting_in_progress gc;
     session_start := session_start gc;
     total_greetings := total_greetings gc;
     latencies := latencies gc;
     avg_latency := avg_latency gc;
     max_latency := max_latency gc;
     min_latency := min_latency gc;
     pending_greetings := pending_greetings gc;
     calls := calls gc |}.

(** One more entry in the record of calls. *)
Definition did (c : Call) (gc : GreetingCoordinator) : GreetingCoordinator :=
  {| event_manager := event_manager gc;
     behavior_manager := behavior_manager gc;
     gesture_speech_delay := gesture_speech_delay gc;
     use_enhanced_voice := use_enhanced_voice gc;
     tts_manager := tts_manager gc;
     adaptive_tts := adaptive_tts gc;
     greeting_selector := greeting_selector gc;
     greeted_persons := greeted_persons gc;
     greeting_in_progress := greeting_in_progress gc;
     session_start := session_start gc;
     total_greetings := total_greetings gc;
     latencies := latencies gc;
     avg_latency := avg_latency gc;
     max_latency := max_latency gc;
     min_latency := min_latency gc;
     pending_greetings := pending_greetings gc;
     calls := calls gc ++ [c] |}.

Definition set_behavior_manager (bm : Behaviors.BehaviorManager)
    (gc : GreetingCoordinator) : GreetingCoordinator :=
  {| event_manager := event_manager gc;
     behavior_manager := bm;
     gesture_speech_delay := gesture_speech_delay gc;
     use_enhanced_voice := use_enhanced_voice gc;
     tts_manager := tts_manager gc;
     adaptive_tts := adaptive_tts gc;
     greeting_selector := greeting_selector gc;
     greeted_persons := greeted_persons gc;
     greeting_in_progress := greeting_in_progress gc;
     session_start := session_start gc;
     total_greetings := total_greetings gc;
     latencies := latencies gc;
     avg_latency := avg_latency gc;
     max_latency := max_latency gc;
     min_latency := min_latency gc;
     pending_greetings := pending_greetings gc;
     calls := calls gc |}.

(** Steps 4 and 5 of [_execute_greeting]: the person is marked as greeted
    and the latency statistics take the new sample. *)
Definition mark_greeted (person : string) (total : Q)
    (gc : GreetingCoordinator) : GreetingCoordinator :=
  let ls := latencies gc ++ [total] in
  {| event_manager := event_manager gc;
     behavior_manager := behavior_manager gc;
     gesture_speech_delay := gesture_speech_delay gc;
     use_enhanced_voice := use_enhanced_voice gc;
     tts_manager := tts_manager gc;
     adaptive_tts := adaptive_tts gc;
     greeting_selector := greeting_selector gc;
     greeted_persons := {[ person ]} ∪ greeted_persons gc;
     greeting_in_progress := greeting_in_progress gc;
     session_start := session_start gc;
     total_greetings := total_greetings gc + 1;
     latencies := ls;
     avg_latency :=
       (foldl Qplus 0 ls / inject_Z (Z.of_nat (length ls)))%Q;
     max_latency :=
       if Qle_bool total (max_latency gc) then max_latency gc else total;
     min_latency :=
       match min_latency gc with
       | None => Some total
       | Some m => Some (if Qle_bool m total then m else total)
       end;
     pending_greetings := pending_greetings gc;
     calls := calls gc |}.

(** How a call ends: it returns, or an exception leaves it; in both cases
    the attributes are as the call left them. *)
Inductive Outcome : Type :=
  | Returned (gc : GreetingCoordinator)
  | Raised (gc : GreetingCoordinator).

Definition state_of (o : Outcome) : GreetingCoordinator :=
  match o with Returned gc => gc | Raised gc => gc end.

(** Step 3 of [_execute_greeting]: the enhanced voice when it is
    complete, else the legacy manager when there is one, else only a
    warning.  A failure that the backend reports in its result, or by
    returning [False], is logged at most; an exception is not caught
    here. *)
Definition speak (genv : GreetingEnv) (gc : GreetingCoordinator)
    (event : RecognitionEvent) : Outcome :=
  if use_enhanced_voice gc && adaptive_tts gc && greeting_selector gc then
    let gc1 := did (SpeakEnhanced (person_name event)) gc in
    match speech genv with
    | SpeechRaises => Raised gc1
    | _ => Returned gc1
    end
  else if tts_manager gc then
    let gc1 := did (SpeakLegacy (person_name event)) gc in
    match speech genv with
    | SpeechRaises => Raised gc1
    | _ => Returned gc1
    end
  else Returned gc.

(** [_execute_greeting(event)] *)
Definition _execute_greeting (genv : GreetingEnv) (gc : GreetingCoordinator)
    (event : RecognitionEvent) : Outcome :=
  let gc1 := did (LogGreeting event) gc in
  let '(bm, started) :=
    Behaviors.execute_behavior (behavior_manager gc1)
      Behaviors.greeting_wave in
  let gc2 := did (Gesture Behaviors.greeting_wave started)
               (set_behavior_manager bm gc1) in
  let gc3 := did (Sleep (gesture_speech_delay gc2)) gc2 in
  match speak genv gc3 event with
  | Raised gc4 => Raised gc4
  | Returned gc4 =>
      Returned
        (did (LogLatencies (initial_latency genv) (total_latency genv))
           (mark_greeted (person_name event) (total_latency genv) gc4))
  end.

(** *** The pending queue *)

(** [==] on two [RecognitionEvent]s, field by field as the dataclass
    compares them; floats are compared by value. *)
Definition event_eqb (a b : RecognitionEvent) : bool :=
  bool_decide (event_type a = event_type b)
  && Qeq_bool (timestamp a) (timestamp b)
  && bool_decide (person_name a = person_name b)
  && Qeq_bool (confidence a) (confidence b)
  && bool_decide (bbox a = bbox b)
  && bool_decide (frame_number a = frame_number b).

(** [list.remove(e)]: the first element equal to [e] goes. *)
Fixpoint list_remove (e : RecognitionEvent) (l : list RecognitionEvent)
    : list RecognitionEvent :=
  match l with
  | [] => []
  | x :: l' => if event_eqb x e then l' else x :: list_remove e l'
  end.

(** [list.sort(key=lambda e: e.confidence, reverse=True)]: highest
    confidence first, equal confidences in their former order. *)
Fixpoint insert_by_confidence (e : RecognitionEvent)
    (l : list RecognitionEvent) : list RecognitionEvent :=
  match l with
  | [] => [e]
  | x :: l' =>
      if Qle_bool (confidence x) (confidence e) then e :: x :: l'
      else x :: insert_by_confidence e l'
  end.

Definition sort_by_confidence (l : list RecognitionEvent)
    : list RecognitionEvent :=
  foldr insert_by_confidence [] l.

(** The [for] loop of [_process_pending_greetings] up to its [if]: the
    first event whose person has not been greeted. *)
Fixpoint first_not_greeted (greeted : gset string)
    (l : list RecognitionEvent) : option RecognitionEvent :=
  match l with
  | [] => None
  | e :: l' =>
      if decide (person_name e ∈ greeted) then first_not_greeted greeted l'
      else Some e
  end.

Section Session.

(** What the greetings of a session meet: [env k] is met by the greeting
    that starts when [k] calls have been recorded. *)
Variable env : nat -> GreetingEnv.

(** [_process_pending_greetings()], the recursion being counted down by
    [fuel]; see [_process_pending_greetings] for the fuel given. *)
Fixpoint process_pending (fuel : nat) (gc : GreetingCoordinator)
    : GreetingCoordinator :=
  match fuel with
  | O => gc
  | S fuel' =>
      match pending_greetings gc with
      | [] => gc
      | _ :: _ =>
          let sorted := sort_by_confidence (pending_greetings gc) in
          let gc1 := set_pending_greetings sorted gc in
          match first_not_greeted (greeted_persons gc1) sorted with
          | None => gc1
          | Some event =>
              let gc2 := set_pending_greetings (list_remove event sorted)
                           gc1 in
              let gc3 := set_greeting_in_progress true gc2 in
              let gc4 := state_of
                           (_execute_greeting (env (length (calls gc3)))
                              gc3 event) in
              let gc5 := set_greeting_in_progress false gc4 in
              process_pending fuel' gc5
          end
      end
  end.

(** Every recursive call is made on a queue one shorter, so one unit of
    fuel per queued event and one for the last call is enough. *)
Definition _process_pending_greetings (gc : GreetingCoordinator)
    : GreetingCoordinator :=
  process_pending (S (length (pending_greetings gc))) gc.

(** The part of [_on_person_recognized] after the flag is taken: the
    greeting, the [except], and the [finally]. *)
Definition finish_greeting (gc : GreetingCoordinator)
    (event : RecognitionEvent) : GreetingCoordinator :=
  let gc1 := state_of
               (_execute_greeting (env (length (calls gc))) gc event) in
  let gc2 := set_greeting_in_progress false gc1 in
  _process_pending_greetings gc2.

(** [_on_person_recognized(event)] *)
Definition _on_person_recognized (gc : GreetingCoordinator)
    (event : RecognitionEvent) : GreetingCoordinator :=
  if decide (person_name event ∈ greeted_persons gc) then gc
  else if greeting_in_progress gc then
    set_pending_greetings (pending_greetings gc ++ [event]) gc
  else
    finish_greeting (set_greeting_in_progress true gc) event.

End Session.

(** [reset_session()] *)
Definition reset_session (gc : GreetingCoordinator) : GreetingCoordinator :=
  set_pending_greetings [] (set_greeted_persons ∅ gc).

(** [has_greeted(person_name)] *)
Definition has_greeted (gc : GreetingCoordinator) (person : string) : bool :=
  bool_decide (person ∈ greeted_persons gc).

(** The events greeted, in order, according to a record of calls. *)
Definition served (cs : list Call) : list RecognitionEvent :=
  omap (fun c => match c with LogGreeting e => Some e | _ => None end) cs.

(** The requests made to the scheduler and to the speech backends. *)
Definition is_scheduler_call (c : Call) : bool :=
  match c with Gesture _ _ => true | _ => false end.

Definition is_speech_call (c : Call) : bool :=
  match c with SpeakEnhanced _ | SpeakLegacy _ => true | _ => false end.

Definition scheduler_calls (cs : list Call) : nat :=
  length (List.filter is_scheduler_call cs).

Definition speech_calls (cs : list Call) : nat :=
  length (List.filter is_speech_call cs).

(** The order of service: [a] may come before [b]. *)
Definition by_confidence (a b : RecognitionEvent) : Prop :=
  (confidence b <= confidence a)%Q.

(** Events delivered one after the other. *)
Definition arrivals (env : nat -> GreetingEnv) (gc : GreetingCoordinator)
    (events : list RecognitionEvent) : GreetingCoordinator :=
  foldl (_on_person_recognized env) gc events.

(** [_on_person_recognized(event)] on a free coordinator for a person not
    yet greeted, with the events [during] delivered by other threads
    while the greeting is under way: after the flag has been taken and
    before the greeting marks its person. *)
Definition during_greeting (env : nat -> GreetingEnv)
    (gc : GreetingCoordinator) (event : RecognitionEvent)
    (during : list RecognitionEvent) : GreetingCoordinator :=
  finish_greeting env
    (arrivals env (set_greeting_in_progress true gc) during) event.

(** *** Statistics *)

(** The dict returned by [get_stats]; [min_latency_ms] is [None] for
    infinity. *)
Record CoordinatorStats : Type := mkCoordinatorStats {
  stats_total_greetings : Z;
  unique_people_greeted : nat;
  stats_greeting_in_progress : bool;
  stats_pending_greetings : nat;
  avg_latency_ms : Q;
  min_latency_ms : option Q;
  max_latency_ms : Q;
  latency_target_met : bool
}.

(** [get_stats()] *)
Definition get_stats (gc : GreetingCoordinator) : CoordinatorStats :=
  let some := negb (bool_decide (latencies gc = [])) in
  {| stats_total_greetings := total_greetings gc;
     unique_people_greeted := size (greeted_persons gc);
     stats_greeting_in_progress := greeting_in_progress gc;
     stats_pending_greetings := length (pending_greetings gc);
     avg_latency_ms := if some then round2 (avg_latency gc) else 0%Q;
     min_latency_ms :=
       if some then round2 <$> min_latency gc else Some 0%Q;
     max_latency_ms := if some then round2 (max_latency gc) else 0%Q;
     latency_target_met :=
       forallb (fun l => negb (Qle_bool 400 l)) (latencies gc) |}.

(** The session and latency attributes as [_execute_greeting] keeps
    them. *)
Definition stats_consistent (gc : GreetingCoordinator) : Prop :=
  total_greetings gc = Z.of_nat (length (latencies gc))
  ∧ Z.of_nat (size (greeted_persons gc)) ≤ total_greetings gc
  ∧ Forall (fun l => (l <= max_latency gc)%Q) (latencies gc)
  ∧ match min_latency gc with
    | None => latencies gc = []
    | Some m => latencies gc ≠ [] ∧ Forall (fun l => (m <= l)%Q) (latencies gc)
    end.



End Coordination.

(* ===================================================================== *)
(** ** Idle manager *)
(* ===================================================================== *)

Module Idle.

(** [src/behaviors/idle_manager.py].  Times are seconds on the clock that
    [datetime.now()] reads. *)

(** The attributes of [IdleManager]; [idle_thread] says whether the
    monitoring thread has been created. *)
Record IdleManager : Type := mkIdle {
  behavior_manager : Behaviors.BehaviorManager;
  activation_threshold : Q;
  idle_interval : Q;
  active : bool;
  last_face_time : option Q;
  idle_thread : bool;
  running : bool;
  _stop_event : bool
}.

(** [IdleManager.__init__] once the two settings are known. *)
Definition init (bm : Behaviors.BehaviorManager) (threshold interval : Q)
    : IdleManager :=
  {| behavior_manager := bm;
     activation_threshold := threshold;
     idle_interval := interval;
     active := false;
     last_face_time := None;
     idle_thread := false;
     running := false;
     _stop_event := false |}.

Definition set_active (b : bool) (t : option Q) (im : IdleManager)
    : IdleManager :=
  {| behavior_manager := behavior_manager im;
     activation_threshold := activation_threshold im;
     idle_interval := idle_interval im;
     active := b;
     last_face_time := t;
     idle_thread := idle_thread im;
     running := running im;
     _stop_event := _stop_event im |}.

Definition set_behavior_manager (bm : Behaviors.BehaviorManager)
    (im : IdleManager) : IdleManager :=
  {| behavior_manager := bm;
     activation_threshold := activation_threshold im;
     idle_interval := idle_interval im;
     active := active im;
     last_face_time := last_face_time im;
     idle_thread := idle_thread im;
     running := running im;
     _stop_event := _stop_event im |}.

(** [start()] *)
Definition start (im : IdleManager) : IdleManager :=
  if running im then im
  else
    {| behavior_manager := behavior_manager im;
       activation_threshold := activation_threshold im;
       idle_interval := idle_interval im;
       active := active im;
       last_face_time := last_face_time im;
       idle_thread := true;
       running := true;
       _stop_event := false |}.

(** [_deactivate_idle()] *)
Definition _deactivate_idle (im : IdleManager) : IdleManager :=
  if negb (active im) then im else set_active false None im.

(** [stop()] *)
Definition stop (im : IdleManager) : IdleManager :=
  if negb (running im) then im
  else
    _deactivate_idle
      {| behavior_manager := behavior_manager im;
         activation_threshold := activation_threshold im;
         idle_interval := idle_interval im;
         active := active im;
         last_face_time := last_face_time im;
         idle_thread := idle_thread im;
         running := false;
         _stop_event := true |}.

(** [notify_face_detected()], called at time [now]. *)
Definition notify_face_detected (now : Q) (im : IdleManager) : IdleManager :=
  let im1 := set_active (active im) (Some now) im in
  if active im1 then _deactivate_idle im1 else im1.

(** [notify_no_faces()], called at time [now]. *)
Definition notify_no_faces (now : Q) (im : IdleManager) : IdleManager :=
  match last_face_time im with
  | None => set_active (active im) (Some now) im
  | Some _ => im
  end.

(** [_execute_idle_behavior()], [draw] being what [create_idle_drift]
    draws; the answer of the scheduler is not looked at. *)
Definition _execute_idle_behavior (draw : Behaviors.IdleDraw)
    (im : IdleManager) : IdleManager :=
  if negb (active im) then im
  else
    set_behavior_manager
      (fst (Behaviors.execute_behavior (behavior_manager im)
              (Behaviors.create_idle_drift draw)))
      im.

(** [_activate_idle()] *)
Definition _activate_idle (draw : Behaviors.IdleDraw) (im : IdleManager)
    : IdleManager :=
  _execute_idle_behavior draw (set_active true (last_face_time im) im).

(** [_check_activation()], called at time [now]. *)
Definition _check_activation (now : Q) (draw : Behaviors.IdleDraw)
    (im : IdleManager) : IdleManager :=
  match last_face_time im with
  | None => im
  | Some t =>
      if Qle_bool (activation_threshold im) (now - t) && negb (active im)
      then _activate_idle draw im
      else im
  end.

(** One turn of the [while] loop of [_monitor_loop], at time [now]; the
    loop ends when the turn finds the manager stopped. *)
Definition monitor_turn (now : Q) (draw : Behaviors.IdleDraw)
    (im : IdleManager) : option IdleManager :=
  if running im && negb (_stop_event im) then
    Some (if negb (active im) then _check_activation now draw im
          else _execute_idle_behavior draw im)
  else None.

(** [_monitor_loop()] over the turns it gets to make. *)
Fixpoint _monitor_loop (turns : list (Q * Behaviors.IdleDraw))
    (im : IdleManager) : IdleManager :=
  match turns with
  | [] => im
  | (now, draw) :: turns' =>
      match monitor_turn now draw im with
      | Some im' => _monitor_loop turns' im'
      | None => im
      end
  end.

(** The dict returned by [get_status]. *)
Record IdleStatus : Type := mkIdleStatus {
  status_running : bool;
  status_active : bool;
  time_since_face : option Q;
  status_activation_threshold : Q;
  will_activate_in : option Q
}.

(** [get_status()], called at time [now]. *)
Definition get_status (now : Q) (im : IdleManager) : IdleStatus :=
  let since := (fun t => now - t)%Q <$> last_face_time im in
  {| status_running := running im;
     status_active := active im;
     time_since_face := since;
     status_activation_threshold := activation_threshold im;
     will_activate_in :=
       match since with
       | Some d =>
           if negb (active im) then
             Some (if Qle_bool (activation_threshold im - d) 0 then 0%Q
                   else (activation_threshold im - d)%Q)
           else None
       | None => None
       end |}.

(** Notifications that no face is in view, at the given times in turn. *)
Definition no_faces_at (times : list Q) (im : IdleManager) : IdleManager :=
  foldl (fun im t => notify_no_faces t im) im times.

End Idle.

(* ===================================================================== *)
(** ** Concrete scenarios *)
(* ===================================================================== *)

Module Scenarios.

Import Events.

(** A clock that always reads 0. *)
Definition clock0 : nat -> Q := fun _ => 0%Q.

Definition alice : Observation :=
  ("Alice"%string, (85 # 100)%Q, (100, 200, 300, 100)).

Definition bob : Observation :=
  ("Bob"%string, (78 # 100)%Q, (150, 500, 350, 400)).

(** A call that shows Alice alone, and a call that shows nobody, with an
    explicit frame number. *)
Definition present (k : Z) : Cycle := ([alice], Some k, clock0).
Definition absent (k : Z) : Cycle := ([], Some k, clock0).

(** The manager of the tests: thresholds of 3 frames, history of 100. *)
Definition tracker : EventManager := init 3 3 100.

(** Alice's state after her first frame. *)
Definition alice_first : PersonState :=
  new_person "Alice" (85 # 100)%Q (100, 200, 300, 100).

(** The tracker after Alice has been shown in frames 1 to 3, and after
    frames 1 and 2 only. *)
Definition tracker_after_3 : EventManager :=
  fst (run tracker [present 1; present 2; present 3]).

Definition tracker_after_2 : EventManager :=
  fst (run tracker [present 1; present 2]).

(** Alice announced and present in the last frame; Alice present for two
    frames and not announced. *)
Definition alice_announced : PersonState :=
  {| name := "Alice"; consecutive_frames := 3; departed_frames := 0;
     last_confidence := (85 # 100)%Q;
     last_bbox := Some (100, 200, 300, 100); event_triggered := true |}.

Definition alice_pending : PersonState :=
  {| name := "Alice"; consecutive_frames := 2; departed_frames := 0;
     last_confidence := (85 # 100)%Q;
     last_bbox := Some (100, 200, 300, 100); event_triggered := false |}.

(** The tracker after one call that showed nobody, and a tracker that
    keeps no history. *)
Definition tracker_idle : EventManager :=
  fst (process_recognition_results tracker [] (Some 1) clock0).

Definition tracker_no_history : EventManager := init 3 3 0.

Definition no_faces_1 : RecognitionEvent :=
  mkEvent NO_FACES 0 "" 0 None 1.

(** Recognition events as the coordinator receives them. *)
Definition recognized (person : string) (conf : Q) (k : Z)
    : RecognitionEvent :=
  {| event_type := PERSON_RECOGNIZED; timestamp := 0; person_name := person;
     confidence := conf; bbox := Some (100, 200, 200, 100);
     frame_number := k |}.

Definition alice_event : RecognitionEvent := recognized "Alice" (95 # 100) 1.
Definition bob_event : RecognitionEvent := recognized "Bob" (88 # 100) 2.
Definition charlie_event : RecognitionEvent :=
  recognized "Charlie" (92 # 100) 3.

(** A coordinator with the legacy speech manager only, as in the tests,
    and the same with a greeting under way. *)
Definition coordinator : Coordination.GreetingCoordinator :=
  Coordination.init tracker (Behaviors.init false) true false false
    (3 # 10) false 0.

Definition coordinator_busy : Coordination.GreetingCoordinator :=
  Coordination.set_greeting_in_progress true coordinator.

(** The same coordinator once Alice has been greeted. *)
Definition coordinator_greeted : Coordination.GreetingCoordinator :=
  Coordination.set_greeted_persons {[ "Alice"%string ]} coordinator.

(** Collaborators that always work, and a speech backend that always
    raises. *)
Definition all_well : nat -> Coordination.GreetingEnv :=
  fun _ => Coordination.mkEnv Coordination.SpeechSpoken 5 350.

Definition speech_broken : nat -> Coordination.GreetingEnv :=
  fun _ => Coordination.mkEnv Coordination.SpeechRaises 5 350.

(** An interruptible behavior of priority 2 is running. *)
Definition filler : Behaviors.Behavior :=
  Behaviors.mkBehavior "filler" [] true 2.

Definition scheduler_busy : Behaviors.BehaviorManager :=
  fst (Behaviors.execute_behavior (Behaviors.init false) filler).


(** An idle manager with the default settings on a free scheduler, the
    same started with its timer set at time 0, one on a busy scheduler
    with idle on, and a draw of [create_idle_drift]. *)
Definition idle_manager : Idle.IdleManager :=
  Idle.init (Behaviors.init false) 5 3.

Definition idle_started : Idle.IdleManager :=
  Idle.notify_no_faces 0 (Idle.start idle_manager).

Definition idle_busy : Idle.IdleManager :=
  Idle.set_active true (Some 0%Q) (Idle.init scheduler_busy 5 3).

Definition some_draw : Behaviors.IdleDraw :=
  Behaviors.mkIdleDraw 1 (-1) 2 3 0 0 1.

End Scenarios.

(* ===================================================================== *)
(** ** Properties of the event system *)
(* ===================================================================== *)

Module EventsFacts.

Import Events.

(** *** The dict of tracked persons *)

Lemma lookup_update_eq n f cs :
  lookup_state n (update_state n f cs) = f <$> lookup_state n cs.
Proof.
  induction cs as [|[k v] cs IH]; simpl; [done|].
  destruct (decide (k = n)) as [->|Hne]; simpl.
  - by rewrite decide_True.
  - by rewrite decide_False.
Qed.

Lemma lookup_update_ne n m f cs :
  n ≠ m -> lookup_state m (update_state n f cs) = lookup_state m cs.
Proof.
  intros Hnm. induction cs as [|[k v] cs IH]; simpl; [done|].
  destruct (decide (k = n)) as [->|Hne]; simpl.
  - by rewrite !decide_False.
  - destruct (decide (k = m)); [done|apply IH].
Qed.

Lemma keys_update n f cs :
  map fst (update_state n f cs) = map fst cs.
Proof.
  induction cs as [|[k v] cs IH]; simpl; [done|].
  destruct (decide (k = n)); simpl; [done|by rewrite IH].
Qed.

Lemma lookup_app n cs cs' :
  lookup_state n (cs ++ cs') =
  match lookup_state n cs with
  | Some s => Some s
  | None => lookup_state n cs'
  end.
Proof.
  induction cs as [|[k v] cs IH]; simpl; [done|].
  destruct (decide (k = n)); [done|apply IH].
Qed.

Lemma lookup_None_keys n cs :
  lookup_state n cs = None <-> n ∉ map fst cs.
Proof.
  induction cs as [|[k v] cs IH]; simpl.
  - split; [intros _; apply not_elem_of_nil|done].
  - rewrite not_elem_of_cons. destruct (decide (k = n)) as [->|Hne].
    + split; [done|intros [? _]; done].
    + rewrite IH. split; [intros ?; split; [congruence|done]|intros [_ ?]; done].
Qed.

Lemma lookup_Some_elem n s cs :
  lookup_state n cs = Some s -> (n, s) ∈ cs.
Proof.
  induction cs as [|[k v] cs IH]; simpl; [done|].
  destruct (decide (k = n)) as [->|Hne].
  - intros [= ->]. apply list_elem_of_here.
  - intros H. apply list_elem_of_further, IH, H.
Qed.

Lemma elem_lookup_Some n s cs :
  NoDup (map fst cs) -> (n, s) ∈ cs -> lookup_state n cs = Some s.
Proof.
  induction cs as [|[k v] cs IH]; simpl; intros Hnd Hin.
  - by apply elem_of_nil in Hin.
  - apply NoDup_cons in Hnd as [Hk Hnd].
    apply elem_of_cons in Hin as [[= -> ->]|Hin].
    + by rewrite decide_True.
    + destruct (decide (k = n)) as [->|Hne]; [|by apply IH].
      exfalso. apply Hk. apply (list_elem_of_fmap_2 fst) in Hin. exact Hin.
Qed.

Lemma lookup_delete_ne n m cs :
  n ≠ m -> lookup_state m (delete_state n cs) = lookup_state m cs.
Proof.
  intros Hnm. induction cs as [|[k v] cs IH]; simpl; [done|].
  destruct (decide (k = n)) as [->|Hne]; simpl.
  - by rewrite decide_False.
  - destruct (decide (k = m)); [done|apply IH].
Qed.

Lemma lookup_delete_eq n cs :
  NoDup (map fst cs) -> lookup_state n (delete_state n cs) = None.
Proof.
  induction cs as [|[k v] cs IH]; simpl; intros Hnd; [done|].
  apply NoDup_cons in Hnd as [Hk Hnd].
  destruct (decide (k = n)) as [->|Hne]; simpl.
  - by apply lookup_None_keys.
  - rewrite decide_False by done. by apply IH.
Qed.

Lemma keys_delete_sub n cs :
  map fst (delete_state n cs) ⊆ map fst cs.
Proof.
  induction cs as [|[k v] cs IH]; simpl; [done|].
  destruct (decide (k = n)); simpl.
  - intros x Hx. apply list_elem_of_further, Hx.
  - intros x Hx. apply elem_of_cons in Hx as [->|Hx].
    + apply list_elem_of_here.
    + apply list_elem_of_further, IH, Hx.
Qed.

Lemma NoDup_delete n cs :
  NoDup (map fst cs) -> NoDup (map fst (delete_state n cs)).
Proof.
  induction cs as [|[k v] cs IH]; simpl; intros Hnd; [done|].
  apply NoDup_cons in Hnd as [Hk Hnd].
  destruct (decide (k = n)); simpl; [done|].
  apply NoDup_cons. split; [|by apply IH].
  intros Hin. apply Hk. by apply (keys_delete_sub n).
Qed.

Lemma elem_delete n p cs :
  p ∈ delete_state n cs -> p ∈ cs.
Proof.
  induction cs as [|[k v] cs IH]; simpl; [done|].
  destruct (decide (k = n)); simpl.
  - apply list_elem_of_further.
  - intros Hx. apply elem_of_cons in Hx as [->|Hx].
    + apply list_elem_of_here.
    + apply list_elem_of_further, IH, Hx.
Qed.

(** *** Counting events *)

Lemma filter_length_snoc {A} (f : A -> bool) l x :
  length (List.filter f (l ++ [x])) =
  (length (List.filter f l) + if f x then 1 else 0)%nat.
Proof.
  rewrite List.filter_app, length_app. simpl. by destruct (f x).
Qed.

Lemma announces_snoc n l e :
  announces n (l ++ [e]) =
  (announces n l + if is_announce n e then 1 else 0)%nat.
Proof. apply filter_length_snoc. Qed.

Lemma departures_snoc n l e :
  departures n (l ++ [e]) =
  (departures n l + if is_departure n e then 1 else 0)%nat.
Proof. apply filter_length_snoc. Qed.

Lemma no_faces_snoc l e :
  no_faces_events (l ++ [e]) =
  (no_faces_events l + if is_no_faces e then 1 else 0)%nat.
Proof. apply filter_length_snoc. Qed.

Lemma same_settings_refl em : same_settings em em.
Proof. by repeat split. Qed.

Lemma same_settings_trans em1 em2 em3 :
  same_settings em1 em2 -> same_settings em2 em3 -> same_settings em1 em3.
Proof.
  unfold same_settings. intros (?&?&?&?&?&?) (?&?&?&?&?&?).
  repeat split; congruence.
Qed.

(** *** The first loop *)

Ltac unfold_setters :=
  unfold _update_accuracy_metrics, _add_to_history, set_accuracy_metrics,
    set_event_history, set_current_state, set_frame_count in *;
  simpl in *.

Ltac observe_cases fr m c b :=
  unfold observe;
  destruct (lookup_state m (current_state (mgr fr))) as [?s|] eqn:?Hlk;
  [ destruct (bool_decide (consecutive_frames (seen_again c b s) =
                           debounce_frames (mgr fr))
              && negb (event_triggered (seen_again c b s))) eqn:?Hfire | ];
  unfold_setters.

Section Loops.

Variable fnum : Z.
Variable now : nat -> Q.

Lemma observe_settings fr r :
  same_settings (mgr fr) (mgr (observe fnum now fr r)).
Proof.
  destruct r as [[m c] b]. observe_cases fr m c b; by repeat split.
Qed.

Lemma observe_names fr m c b :
  current_names (observe fnum now fr (m, c, b)) = {[ m ]} ∪ current_names fr.
Proof. by observe_cases fr m c b. Qed.

Lemma observe_lookup fr m c b n :
  lookup_state n (current_state (mgr (observe fnum now fr (m, c, b)))) =
  if decide (m = n)
  then Some (fst (see (debounce_frames (mgr fr)) n c b
                    (lookup_state n (current_state (mgr fr)))))
  else lookup_state n (current_state (mgr fr)).
Proof.
  destruct (decide (m = n)) as [->|Hne].
  - observe_cases fr n c b; unfold see.
    + rewrite lookup_update_eq, Hlk. simpl. by rewrite Hfire.
    + rewrite lookup_update_eq, Hlk. simpl. by rewrite Hfire.
    + rewrite lookup_app, Hlk. simpl. by rewrite decide_True.
  - observe_cases fr m c b.
    + by rewrite lookup_update_ne.
    + by rewrite lookup_update_ne.
    + rewrite lookup_app. destruct (lookup_state n _); [done|].
      simpl. by rewrite decide_False.
Qed.

Lemma observe_announces fr m c b n :
  announces n (events (observe fnum now fr (m, c, b))) =
  (announces n (events fr) +
   if decide (m = n)
   then (if snd (see (debounce_frames (mgr fr)) n c b
                   (lookup_state n (current_state (mgr fr))))
         then 1 else 0)
   else 0)%nat.
Proof.
  destruct (decide (m = n)) as [->|Hne].
  - observe_cases fr n c b; unfold see; rewrite ?Hfire; simpl; try lia.
    rewrite announces_snoc. unfold is_announce. simpl.
    rewrite (bool_decide_eq_true_2 (n = n)) by done.
    destruct (decide (n = "unknown"%string)); simpl; lia.
  - observe_cases fr m c b; try lia.
    rewrite announces_snoc. unfold is_announce. simpl.
    rewrite (bool_decide_eq_false_2 (m = n)) by done.
    rewrite andb_false_r. lia.
Qed.

Lemma observe_departures fr r n :
  departures n (events (observe fnum now fr r)) = departures n (events fr).
Proof.
  destruct r as [[m c] b]. observe_cases fr m c b; try done.
  rewrite departures_snoc. unfold is_departure. simpl.
  destruct (decide (m = "unknown"%string)); simpl; lia.
Qed.

Lemma observe_no_faces fr r :
  no_faces_events (events (observe fnum now fr r)) = no_faces_events (events fr).
Proof.
  destruct r as [[m c] b]. observe_cases fr m c b; try done.
  rewrite no_faces_snoc. unfold is_no_faces. simpl.
  destruct (decide (m = "unknown"%string)); simpl; lia.
Qed.

Lemma observe_NoDup fr r :
  NoDup (map fst (current_state (mgr fr))) ->
  NoDup (map fst (current_state (mgr (observe fnum now fr r)))).
Proof.
  destruct r as [[m c] b]. observe_cases fr m c b; rewrite ?keys_update; try done.
  intros Hnd. rewrite map_app. simpl. apply NoDup_app. split; [done|].
  split; [|apply NoDup_singleton].
  intros k Hk Hk'. apply list_elem_of_singleton in Hk' as ->.
  by apply lookup_None_keys in Hlk.
Qed.

Lemma Forall_update_const (P : PersonState -> Prop) n s1 cs :
  Forall (fun p => P (snd p)) cs -> P s1 ->
  Forall (fun p => P (snd p)) (update_state n (fun _ => s1) cs).
Proof.
  intros Hall Hs. induction Hall as [|[k v] cs Hv Hall IH]; simpl; [done|].
  destruct (decide (k = n)); constructor; done.
Qed.

Lemma wf_person_lookup n s cs :
  Forall (fun p => wf_person (snd p)) cs ->
  lookup_state n cs = Some s -> wf_person s.
Proof.
  intros Hall Hlk. apply lookup_Some_elem in Hlk.
  rewrite Forall_forall in Hall. apply (Hall _ Hlk).
Qed.

Lemma observe_wf_person fr r :
  Forall (fun p => wf_person (snd p)) (current_state (mgr fr)) ->
  Forall (fun p => wf_person (snd p))
    (current_state (mgr (observe fnum now fr r))).
Proof.
  destruct r as [[m c] b]. intros Hall.
  assert (Hs : forall s, lookup_state m (current_state (mgr fr)) = Some s ->
                         wf_person (seen_again c b s)).
  { intros s Hlk. destruct (wf_person_lookup _ _ _ Hall Hlk) as [H1 H2].
    split; simpl; lia. }
  observe_cases fr m c b.
  - apply Forall_update_const; [done|]. apply (Hs _ eq_refl).
  - apply Forall_update_const; [done|]. apply (Hs _ eq_refl).
  - apply Forall_app. split; [done|]. constructor; [|done].
    split; simpl; lia.
Qed.

Lemma see_all_cons d n m c b rs o :
  see_all d n ((m, c, b) :: rs) o =
  if decide (m = n)
  then (fst (see_all d n rs (Some (fst (see d n c b o)))),
        ((if snd (see d n c b o) then 1 else 0)
         + snd (see_all d n rs (Some (fst (see d n c b o)))))%nat)
  else see_all d n rs o.
Proof.
  simpl. destruct (decide (m = n)); [|done].
  destruct (see d n c b o) as [s fired]. simpl.
  by destruct (see_all d n rs (Some s)).
Qed.

Lemma first_loop_settings rs fr :
  same_settings (mgr fr) (mgr (foldl (observe fnum now) fr rs)).
Proof.
  revert fr. induction rs as [|r rs IH]; intros fr; cbn [foldl].
  - apply same_settings_refl.
  - eapply same_settings_trans; [apply observe_settings|apply IH].
Qed.

Lemma first_loop_names rs fr :
  current_names (foldl (observe fnum now) fr rs) =
  list_to_set (map obs_name rs) ∪ current_names fr.
Proof.
  revert fr. induction rs as [|[[m c] b] rs IH]; intros fr.
  - simpl. by rewrite (left_id_L ∅ (∪)).
  - cbn [foldl map list_to_set]. rewrite IH, observe_names.
    unfold obs_name. simpl. by rewrite (assoc_L (∪)), (comm_L (∪) _ {[m]}).
Qed.

Lemma first_loop_lookup n rs fr :
  lookup_state n (current_state (mgr (foldl (observe fnum now) fr rs))) =
  fst (see_all (debounce_frames (mgr fr)) n rs
         (lookup_state n (current_state (mgr fr)))).
Proof.
  revert fr. induction rs as [|[[m c] b] rs IH]; intros fr; [done|].
  cbn [foldl]. rewrite IH, see_all_cons, observe_lookup.
  destruct (observe_settings fr (m, c, b)) as (-> & _).
  by destruct (decide (m = n)).
Qed.

Lemma first_loop_announces n rs fr :
  announces n (events (foldl (observe fnum now) fr rs)) =
  (announces n (events fr) +
   snd (see_all (debounce_frames (mgr fr)) n rs
          (lookup_state n (current_state (mgr fr)))))%nat.
Proof.
  revert fr. induction rs as [|[[m c] b] rs IH]; intros fr; [simpl; lia|].
  cbn [foldl]. rewrite IH, see_all_cons, observe_lookup, observe_announces.
  destruct (observe_settings fr (m, c, b)) as (-> & _).
  destruct (decide (m = n)); simpl; lia.
Qed.

Lemma first_loop_departures n rs fr :
  departures n (events (foldl (observe fnum now) fr rs)) =
  departures n (events fr).
Proof.
  revert fr. induction rs as [|r rs IH]; intros fr; [done|].
  cbn [foldl]. by rewrite IH, observe_departures.
Qed.

Lemma first_loop_no_faces rs fr :
  no_faces_events (events (foldl (observe fnum now) fr rs)) =
  no_faces_events (events fr).
Proof.
  revert fr. induction rs as [|r rs IH]; intros fr; [done|].
  cbn [foldl]. by rewrite IH, observe_no_faces.
Qed.

Lemma first_loop_NoDup rs fr :
  NoDup (map fst (current_state (mgr fr))) ->
  NoDup (map fst (current_state (mgr (foldl (observe fnum now) fr rs)))).
Proof.
  revert fr. induction rs as [|r rs IH]; intros fr Hnd; [done|].
  cbn [foldl]. by apply IH, observe_NoDup.
Qed.

Lemma first_loop_wf_person rs fr :
  Forall (fun p => wf_person (snd p)) (current_state (mgr fr)) ->
  Forall (fun p => wf_person (snd p))
    (current_state (mgr (foldl (observe fnum now) fr rs))).
Proof.
  revert fr. induction rs as [|r rs IH]; intros fr Hall; [done|].
  cbn [foldl]. by apply IH, observe_wf_person.
Qed.

(** *** The second and third loops *)

Lemma check_departed_spec todo fr :
  let t := em_departed_frames (mgr fr) in
  let names := current_names fr in
  let '(cs, fr', dn) := check_departed fnum now todo fr in
  cs = map (absent_step names) todo
  ∧ dn = map fst (List.filter (departs t names) todo)
  ∧ same_settings (mgr fr) (mgr fr')
  ∧ current_state (mgr fr') = current_state (mgr fr)
  ∧ current_names fr' = names
  ∧ no_faces_events (events fr') = no_faces_events (events fr)
  ∧ forall n,
      announces n (events fr') = announces n (events fr)
      ∧ departures n (events fr') =
        (departures n (events fr) + occurrences n dn)%nat.
Proof.
  revert fr. induction todo as [|[m s] todo IH]; intros fr; simpl.
  - split_and!; done.
  - unfold departs at 1, absent_step at 1. simpl.
    destruct (decide (m ∈ current_names fr)) as [Hin|Hout].
    + specialize (IH fr).
      destruct (check_departed fnum now todo fr) as [[cs fr'] dn].
      rewrite (bool_decide_eq_false_2 (m ∉ _)) by (intros H; by apply H).
      simpl. destruct IH as (-> & -> & ? & ? & ? & ? & Hn).
      split_and!; done.
    + rewrite (bool_decide_eq_true_2 (m ∉ _)) by done. simpl.
      destruct (bool_decide (departed_frames s + 1 =
                             em_departed_frames (mgr fr))
                && event_triggered s) eqn:Hdep.
      * match goal with
        | |- context [check_departed fnum now todo ?f] =>
            specialize (IH f); destruct (check_departed fnum now todo f)
              as [[cs fr'] dn]
        end.
        simpl in IH. destruct IH as (-> & -> & Hs & Hcs & Hnm & Hnf & Hn).
        split_and!; try done.
        -- rewrite Hnf, no_faces_snoc. unfold is_no_faces. simpl. lia.
        -- intros n. destruct (Hn n) as [-> ->]. split.
           ++ rewrite announces_snoc. unfold is_announce. simpl. lia.
           ++ rewrite departures_snoc. unfold is_departure, occurrences.
              simpl. destruct (bool_decide (m = n)); simpl; lia.
      * specialize (IH fr).
        destruct (check_departed fnum now todo fr) as [[cs fr'] dn].
        destruct IH as (-> & -> & ? & ? & ? & ? & Hn).
        split_and!; done.
Qed.

Lemma lookup_absent_step names n cs :
  lookup_state n (map (absent_step names) cs) =
  (fun s => if decide (n ∈ names) then s else not_seen s)
    <$> lookup_state n cs.
Proof.
  induction cs as [|[k v] cs IH]; simpl; [done|].
  destruct (decide (k = n)) as [->|Hne]; [done|apply IH].
Qed.

Lemma keys_absent_step names cs :
  map fst (map (absent_step names) cs) = map fst cs.
Proof. induction cs as [|[k v] cs IH]; simpl; [done|by rewrite IH]. Qed.

Lemma occurrences_departs t names n cs :
  NoDup (map fst cs) ->
  occurrences n (map fst (List.filter (departs t names) cs)) =
  match lookup_state n cs with
  | Some s => if departs t names (n, s) then 1%nat else 0%nat
  | None => 0%nat
  end.
Proof.
  induction cs as [|[k v] cs IH]; simpl; intros Hnd; [done|].
  apply NoDup_cons in Hnd as [Hk Hnd]. specialize (IH Hnd).
  destruct (decide (k = n)) as [->|Hne].
  - assert (lookup_state n cs = None) as Hnone by by apply lookup_None_keys.
    rewrite Hnone in IH.
    destruct (departs t names (n, v)); simpl; [|done].
    unfold occurrences in *. simpl.
    rewrite (bool_decide_eq_true_2 (n = n)) by done. simpl. by rewrite IH.
  - destruct (departs t names (k, v)); simpl; [|done].
    unfold occurrences in *. simpl.
    by rewrite (bool_decide_eq_false_2 (k = n)) by done.
Qed.

Lemma occurrences_elem n l : n ∈ l <-> occurrences n l ≠ 0%nat.
Proof.
  unfold occurrences. induction l as [|k l IH]; simpl.
  - split; [intros H; by apply elem_of_nil in H|done].
  - rewrite elem_of_cons. destruct (decide (k = n)) as [->|Hne].
    + rewrite bool_decide_eq_true_2 by done. simpl. split; [lia|by left].
    + rewrite bool_decide_eq_false_2 by done. rewrite <- IH.
      split; [intros [?|?]; [congruence|done]|by right].
Qed.

Lemma departed_names_elem t names n cs :
  NoDup (map fst cs) ->
  n ∈ map fst (List.filter (departs t names) cs) <->
  match lookup_state n cs with
  | Some s => departs t names (n, s) = true
  | None => False
  end.
Proof.
  intros Hnd. rewrite occurrences_elem, occurrences_departs by done.
  destruct (lookup_state n cs) as [s|]; [|done].
  destruct (departs t names (n, s)); split; done.
Qed.

Lemma remove_departed_lookup dn n cs :
  NoDup (map fst cs) ->
  lookup_state n (remove_departed dn cs) =
  if decide (n ∈ dn) then None else lookup_state n cs.
Proof.
  unfold remove_departed. revert cs.
  induction dn as [|k dn IH]; intros cs Hnd; cbn [foldl].
  - destruct (decide (n ∈ [])) as [Hin|_]; [|done].
    by apply elem_of_nil in Hin.
  - rewrite IH by by apply NoDup_delete.
    destruct (decide (n ∈ dn)) as [Hin|Hout];
      destruct (decide (n ∈ k :: dn)) as [Hin'|Hout']; try done.
    + exfalso. apply Hout'. by right.
    + apply elem_of_cons in Hin' as [->|?]; [|done].
      by apply lookup_delete_eq.
    + apply lookup_delete_ne. intros ->. apply Hout'. by left.
Qed.

Lemma remove_departed_NoDup dn cs :
  NoDup (map fst cs) -> NoDup (map fst (remove_departed dn cs)).
Proof.
  unfold remove_departed. revert cs.
  induction dn as [|k dn IH]; intros cs Hnd; simpl; [done|].
  by apply IH, NoDup_delete.
Qed.

Lemma remove_departed_elem dn p cs :
  p ∈ remove_departed dn cs -> p ∈ cs.
Proof.
  unfold remove_departed. revert cs.
  induction dn as [|k dn IH]; intros cs; simpl; [done|].
  intros H. apply IH in H. by apply elem_delete in H.
Qed.

(** *** The whole call, seen from one name *)

Lemma see_all_unseen d n rs o :
  n ∉ map obs_name rs -> see_all d n rs o = (o, 0%nat).
Proof.
  revert o. induction rs as [|[[m c] b] rs IH]; intros o Hn; [done|].
  rewrite see_all_cons. cbn [map] in Hn. apply not_elem_of_cons in Hn as [H1 H2].
  rewrite decide_False by (intros ->; by apply H1). by apply IH.
Qed.

Lemma sightings_elem n rs : n ∈ map obs_name rs <-> sightings n rs ≠ 0%nat.
Proof.
  unfold sightings. induction rs as [|r rs IH]; simpl.
  - split; [intros H; by apply elem_of_nil in H|done].
  - rewrite elem_of_cons. destruct (decide (obs_name r = n)) as [->|Hne].
    + rewrite bool_decide_eq_true_2 by done. simpl. split; [lia|by left].
    + rewrite bool_decide_eq_false_2 by done. rewrite <- IH.
      split; [intros [?|?]; [congruence|done]|by right].
Qed.

Lemma check_no_faces_spec rs fr :
  let fr' := check_no_faces fnum now rs fr in
  same_settings (mgr fr) (mgr fr')
  ∧ current_state (mgr fr') = current_state (mgr fr)
  ∧ (forall n, announces n (events fr') = announces n (events fr)
               ∧ departures n (events fr') = departures n (events fr))
  ∧ (no_faces_events (events fr') ≤ no_faces_events (events fr) + 1)%nat
  ∧ (rs ≠ [] ∨ current_state (mgr fr) ≠ [] ->
     no_faces_events (events fr') = no_faces_events (events fr)).
Proof.
  unfold check_no_faces.
  destruct (bool_decide (length rs = 0%nat)
            && bool_decide (length (current_state (mgr fr)) = 0%nat))
    eqn:Hempty.
  - apply andb_true_iff in Hempty as [H1%bool_decide_eq_true
                                        H2%bool_decide_eq_true].
    apply length_zero_iff_nil in H1, H2.
    destruct (bool_decide (frame_count (mgr fr) = 1)
              || _last_event_was_not_no_faces (mgr fr)); simpl.
    + split_and!; try done.
      * intros n. rewrite announces_snoc, departures_snoc.
        unfold is_announce, is_departure. simpl. lia.
      * rewrite no_faces_snoc. unfold is_no_faces. simpl. lia.
      * intros [?|?]; done.
    + split_and!; try done; lia.
  - split_and!; try done; lia.
Qed.

Lemma process_frame_person n em rs :
  NoDup (map fst (current_state em)) ->
  let fr := process_frame fnum now em rs in
  let r := person_step (debounce_frames em) (em_departed_frames em) n rs
             (lookup_state n (current_state em)) in
  same_settings em (mgr fr)
  ∧ lookup_state n (current_state (mgr fr)) = fst (fst r)
  ∧ announces n (events fr) = snd (fst r)
  ∧ departures n (events fr) = snd r
  ∧ (no_faces_events (events fr) ≤ 1)%nat
  ∧ (rs ≠ [] ∨ current_state (mgr fr) ≠ [] ->
     no_faces_events (events fr) = 0%nat)
  ∧ NoDup (map fst (current_state (mgr fr))).
Proof.
  intros Hnd. unfold process_frame.
  set (fr0 := {| mgr := em; events := []; current_names := ∅ |}).
  set (fr1 := foldl (observe fnum now) fr0 rs).
  pose proof (first_loop_settings rs fr0) as Hs1.
  pose proof (first_loop_names rs fr0) as Hn1.
  pose proof (first_loop_lookup n rs fr0) as Hl1.
  pose proof (first_loop_announces n rs fr0) as Ha1.
  pose proof (first_loop_departures n rs fr0) as Hd1.
  pose proof (first_loop_no_faces rs fr0) as Hf1.
  pose proof (first_loop_NoDup rs fr0 Hnd) as Hnd1.
  fold fr1 in Hs1, Hn1, Hl1, Ha1, Hd1, Hf1, Hnd1. simpl in *.
  rewrite (right_id_L ∅ (∪)) in Hn1.
  pose proof (check_departed_spec (current_state (mgr fr1)) fr1) as H2.
  destruct (check_departed fnum now (current_state (mgr fr1)) fr1)
    as [[cs fr2] dn].
  simpl in H2. destruct H2 as (Hcs & Hdn & Hs2 & _ & Hn2 & Hf2 & He2).
  match goal with
  | |- context [check_no_faces fnum now rs ?f] =>
      pose proof (check_no_faces_spec rs f) as H3;
      set (fr4 := check_no_faces fnum now rs f) in *
  end.
  simpl in H3. destruct H3 as (Hs3 & Hcs3 & He3 & Hf3 & Hf3').
  subst cs dn.
  assert (Hndcs : NoDup (map fst (map (absent_step (current_names fr1))
                                    (current_state (mgr fr1))))).
  { by rewrite keys_absent_step. }
  assert (Hlook : lookup_state n (current_state (mgr fr4)) =
                  fst (fst (person_step (debounce_frames em)
                              (em_departed_frames em) n rs
                              (lookup_state n (current_state em)))) ∧
                  departures n (events fr4) =
                  snd (person_step (debounce_frames em)
                              (em_departed_frames em) n rs
                              (lookup_state n (current_state em)))).
  { rewrite Hcs3. destruct (He3 n) as [_ ->]. destruct (He2 n) as [_ ->].
    rewrite Hd1. rewrite remove_departed_lookup by done.
    rewrite occurrences_departs by done.
    pose proof (departed_names_elem (em_departed_frames (mgr fr1))
                  (current_names fr1) n _ Hnd1) as Hel.
    destruct Hs1 as (_ & Ht & _). rewrite Ht in *.
    rewrite lookup_absent_step. rewrite Hl1, Hn1 in *.
    unfold person_step, departures. cbn [List.filter length Nat.add].
    destruct (decide (n ∈ map obs_name rs)) as [Hin|Hout].
    - rewrite bool_decide_eq_true_2 by done. cbn [fst snd].
      assert (Hset : n ∈ (list_to_set (map obs_name rs) : gset string))
        by by apply elem_of_list_to_set.
      destruct (fst (see_all _ n rs _)) as [s|]; cbn [fmap option_fmap option_map] in *.
      + unfold departs in *. cbn [fst snd] in *.
        rewrite (bool_decide_eq_false_2 (n ∉ _)) in *
          by (intros H; by apply H).
        cbn [andb] in *.
        destruct (decide (n ∈ map fst _)) as [Hd|Hd];
          [by apply Hel in Hd|].
        by rewrite decide_True by done.
      + by destruct (decide (n ∈ map fst _)).
    - rewrite bool_decide_eq_false_2 by done. cbn [fst snd].
      assert (Hset : n ∉ (list_to_set (map obs_name rs) : gset string))
        by by rewrite elem_of_list_to_set.
      rewrite see_all_unseen in * by done. cbn [fst snd] in *.
      destruct (lookup_state n (current_state em)) as [s|];
        cbn [fmap option_fmap option_map miss] in *.
      + unfold departs in *. cbn [fst snd] in *.
        rewrite (bool_decide_eq_true_2 (n ∉ _)) in * by done.
        cbn [andb] in *.
        destruct (bool_decide (departed_frames s + 1 = em_departed_frames em)
                  && event_triggered s) eqn:Hdep; cbn [fst snd].
        * destruct (decide (n ∈ map fst _)) as [Hd|Hd]; [done|].
          exfalso. by apply Hd, Hel.
        * destruct (decide (n ∈ map fst _)) as [Hd|Hd].
          -- by apply Hel in Hd.
          -- by rewrite decide_False by done.
      + by destruct (decide (n ∈ map fst _)). }
  destruct Hlook as [Hlook Hdeps].
  split_and!; try done.
  - eapply same_settings_trans; [apply Hs1|].
    eapply same_settings_trans; [apply Hs2|]. apply Hs3.
  - destruct (He3 n) as [-> _]. destruct (He2 n) as [-> _].
    rewrite Ha1. unfold person_step.
    destruct (decide (n ∈ map obs_name rs)).
    + by rewrite bool_decide_eq_true_2 by done.
    + rewrite bool_decide_eq_false_2 by done.
      by rewrite see_all_unseen by done.
  - rewrite Hf2, Hf1 in Hf3. simpl in Hf3. lia.
  - intros H. rewrite Hf3'; [by rewrite Hf2, Hf1|].
    by rewrite Hcs3 in H.
  - rewrite Hcs3. by apply remove_departed_NoDup.
Qed.

Lemma process_frame_wf_person em rs :
  Forall (fun p => wf_person (snd p)) (current_state em) ->
  Forall (fun p => wf_person (snd p))
    (current_state (mgr (process_frame fnum now em rs))).
Proof.
  intros Hall. unfold process_frame.
  set (fr0 := {| mgr := em; events := []; current_names := ∅ |}).
  set (fr1 := foldl (observe fnum now) fr0 rs).
  pose proof (first_loop_wf_person rs fr0 Hall) as H1. fold fr1 in H1.
  pose proof (check_departed_spec (current_state (mgr fr1)) fr1) as H2.
  destruct (check_departed fnum now (current_state (mgr fr1)) fr1)
    as [[cs fr2] dn].
  simpl in H2. destruct H2 as (-> & _).
  match goal with
  | |- context [check_no_faces fnum now rs ?f] =>
      destruct (check_no_faces_spec rs f) as (_ & -> & _)
  end.
  simpl. rewrite Forall_forall. intros p Hp%remove_departed_elem.
  apply list_elem_of_fmap in Hp as ([k v] & -> & Hv).
  rewrite Forall_forall in H1. specialize (H1 _ Hv).
  unfold absent_step. simpl in *. destruct (decide (k ∈ _)); [done|].
  destruct H1 as [? ?]. split; simpl; lia.
Qed.

End Loops.

(** *** One call, and runs of calls *)

Lemma call_person n em rs fn now :
  NoDup (map fst (current_state em)) ->
  let em' := fst (process_recognition_results em rs fn now) in
  let evs := snd (process_recognition_results em rs fn now) in
  let r := person_step (debounce_frames em) (em_departed_frames em) n rs
             (lookup_state n (current_state em)) in
  debounce_frames em' = debounce_frames em
  ∧ em_departed_frames em' = em_departed_frames em
  ∧ lookup_state n (current_state em') = fst (fst r)
  ∧ announces n evs = snd (fst r)
  ∧ departures n evs = snd r
  ∧ (no_faces_events evs ≤ 1)%nat
  ∧ (rs ≠ [] ∨ current_state em' ≠ [] -> no_faces_events evs = 0%nat).
Proof.
  intros Hnd. unfold process_recognition_results.
  destruct fn as [k|]; simpl.
  - destruct (process_frame_person k now n em rs Hnd)
      as ((? & ? & _) & ? & ? & ? & ? & ? & _).
    split_and!; done.
  - destruct (process_frame_person (frame_count em + 1) now n
                (set_frame_count (frame_count em + 1) em) rs Hnd)
      as ((? & ? & _) & ? & ? & ? & ? & ? & _).
    split_and!; done.
Qed.

Lemma call_wf em rs fn now :
  wf em -> wf (fst (process_recognition_results em rs fn now)).
Proof.
  intros [Hnd Hall]. unfold process_recognition_results, wf.
  destruct fn as [k|]; simpl.
  - split; [|by apply process_frame_wf_person].
    by destruct (process_frame_person k now ""%string em rs Hnd)
      as (_ & _ & _ & _ & _ & _ & ?).
  - split; [|by apply process_frame_wf_person].
    by destruct (process_frame_person (frame_count em + 1) now ""%string
                   (set_frame_count (frame_count em + 1) em) rs Hnd)
      as (_ & _ & _ & _ & _ & _ & ?).
Qed.

Lemma init_wf d t m : wf (init d t m).
Proof. split; simpl; [apply NoDup_nil_2|done]. Qed.

Lemma run_cons em rs fn now cycles :
  run em ((rs, fn, now) :: cycles) =
  (fst (run (fst (process_recognition_results em rs fn now)) cycles),
   snd (process_recognition_results em rs fn now)
   :: snd (run (fst (process_recognition_results em rs fn now)) cycles)).
Proof.
  simpl. destruct (process_recognition_results em rs fn now) as [em1 evs].
  simpl. by destruct (run em1 cycles).
Qed.

Lemma run_wf em cycles : wf em -> wf (fst (run em cycles)).
Proof.
  revert em. induction cycles as [|[[rs fn] now] cycles IH]; intros em Hwf.
  - done.
  - rewrite run_cons. simpl. by apply IH, call_wf.
Qed.

(** *** The entry of one person, step by step *)

Lemma see_fresh d n c b o :
  (forall s, o = Some s -> wf_person s) -> fresh (fst (see d n c b o)).
Proof.
  intros Hwf. unfold see, fresh. destruct o as [s|]; simpl; [|lia].
  destruct (Hwf s eq_refl) as [H1 H2].
  destruct (bool_decide _ && negb _); simpl; lia.
Qed.

Lemma fresh_wf_person s : fresh s -> wf_person s.
Proof. unfold fresh, wf_person. lia. Qed.

Lemma see_all_fresh d n rs o :
  n ∈ map obs_name rs ->
  (forall s, o = Some s -> wf_person s) ->
  exists s, fst (see_all d n rs o) = Some s ∧ fresh s.
Proof.
  revert o. induction rs as [|[[m c] b] rs IH]; intros o Hin Hwf.
  - by apply elem_of_nil in Hin.
  - rewrite see_all_cons. destruct (decide (m = n)) as [->|Hne]; simpl.
    + pose proof (see_fresh d n c b o Hwf) as Hf.
      destruct (decide (n ∈ map obs_name rs)) as [Hin'|Hout].
      * apply IH; [done|]. intros s [= <-]. by apply fresh_wf_person.
      * rewrite see_all_unseen by done. simpl. eauto.
    + apply IH; [|done]. cbn [map] in Hin.
      apply elem_of_cons in Hin as [Heq|?]; [|done].
      unfold obs_name in Heq. simpl in Heq. congruence.
Qed.

(** C5: after every call of [process_recognition_results] on a manager
    whose dict is well formed, every tracked person state has
    [consecutive_frames > 0] if and only if [departed_frames = 0]. *)
Theorem presence_absence_invariant em rs fn now n s :
  wf em ->
  (n, s) ∈ current_state (fst (process_recognition_results em rs fn now)) ->
  0 < consecutive_frames s <-> departed_frames s = 0.
Proof.
  intros Hwf Hin.
  pose proof (call_wf em rs fn now Hwf) as [Hnd' _].
  apply (elem_lookup_Some _ _ _ Hnd') in Hin.
  destruct Hwf as [Hnd Hall].
  destruct (call_person n em rs fn now Hnd) as (_ & _ & Hlk & _).
  rewrite Hlk in Hin. clear Hlk. unfold person_step in Hin.
  assert (Ho : forall s0, lookup_state n (current_state em) = Some s0 ->
                          wf_person s0).
  { intros s0. apply wf_person_lookup, Hall. }
  destruct (decide (n ∈ map obs_name rs)) as [Hseen|Hunseen].
  - rewrite bool_decide_eq_true_2 in Hin by done. simpl in Hin.
    destruct (see_all_fresh (debounce_frames em) n rs _ Hseen Ho)
      as (s' & Hs' & Hf).
    rewrite Hs' in Hin. injection Hin as <-. unfold fresh in Hf. lia.
  - rewrite bool_decide_eq_false_2 in Hin by done. simpl in Hin.
    destruct (lookup_state n (current_state em)) as [s0|]; [|done].
    destruct (Ho s0 eq_refl) as [H1 H2]. simpl in Hin.
    destruct (bool_decide _ && event_triggered s0); [done|].
    injection Hin as <-. simpl. lia.
Qed.

Lemma unseen_not_elem n c : unseen n c -> n ∉ map obs_name (fst (fst c)).
Proof.
  unfold unseen. intros H Hin. by apply sightings_elem in Hin.
Qed.

Lemma call_unseen n em rs fn now :
  NoDup (map fst (current_state em)) ->
  sightings n rs = 0%nat ->
  let em' := fst (process_recognition_results em rs fn now) in
  let evs := snd (process_recognition_results em rs fn now) in
  let r := miss (em_departed_frames em) (lookup_state n (current_state em)) in
  em_departed_frames em' = em_departed_frames em
  ∧ debounce_frames em' = debounce_frames em
  ∧ lookup_state n (current_state em') = fst r
  ∧ announces n evs = 0%nat
  ∧ departures n evs = snd r
  ∧ (current_state em' ≠ [] -> no_faces_events evs = 0%nat).
Proof.
  intros Hnd Hun.
  destruct (call_person n em rs fn now Hnd)
    as (Hd & Ht & Hlk & Ha & Hdp & _ & Hnf).
  unfold person_step in *.
  rewrite bool_decide_eq_false_2 in *
    by (intros Hin; by apply sightings_elem in Hin).
  simpl in *. split_and!; try done. intros H. apply Hnf. by right.
Qed.

(** C10: a tracked person whose announce event never fired
    ([event_triggered] false) stays in the dict through any number of
    calls that do not show it: [departed_frames] grows by one per call,
    past the departure threshold, no [PERSON_DEPARTED] is emitted for it,
    and no call emits [NO_FACES] while it is there. *)
Theorem unannounced_never_removed em cycles n s :
  wf em ->
  lookup_state n (current_state em) = Some s ->
  event_triggered s = false ->
  Forall (unseen n) cycles ->
  exists s',
    lookup_state n (current_state (fst (run em cycles))) = Some s'
    ∧ event_triggered s' = false
    ∧ departed_frames s' = departed_frames s + Z.of_nat (length cycles)
    ∧ Forall (fun evs => departures n evs = 0%nat
                         ∧ no_faces_events evs = 0%nat)
        (snd (run em cycles)).
Proof.
  revert em s.
  induction cycles as [|[[rs fn] now] cycles IH]; intros em s Hwf Hlk Htr Hun.
  - exists s. simpl. split_and!; try done. lia.
  - apply Forall_cons in Hun as [Hun1 Hun].
    rewrite run_cons. cbn [fst snd].
    destruct (call_unseen n em rs fn now (proj1 Hwf) Hun1)
      as (_ & _ & Hlk1 & _ & Hdp1 & Hnf1).
    rewrite Hlk in Hlk1, Hdp1. simpl in Hlk1, Hdp1.
    rewrite Htr, andb_false_r in Hlk1, Hdp1. simpl in Hlk1, Hdp1.
    destruct (IH _ (not_seen s) (call_wf em rs fn now Hwf) Hlk1 Htr Hun)
      as (s' & Hlk' & Htr' & Hd' & Hall).
    exists s'. split_and!; try done.
    + rewrite Hd'. simpl. lia.
    + constructor; [|done]. split; [done|]. apply Hnf1.
      intros Hnil. by rewrite Hnil in Hlk1.
Qed.

Lemma sightings_cons n m c b rs :
  sightings n ((m, c, b) :: rs) =
  ((if decide (m = n) then 1 else 0) + sightings n rs)%nat.
Proof.
  unfold sightings, obs_name. simpl.
  destruct (decide (m = n)).
  - by rewrite bool_decide_eq_true_2.
  - by rewrite bool_decide_eq_false_2.
Qed.

Lemma see_all_once d n rs o :
  sightings n rs = 1%nat ->
  exists c b,
    (n, c, b) ∈ rs
    ∧ see_all d n rs o =
      (Some (fst (see d n c b o)), if snd (see d n c b o) then 1%nat else 0%nat).
Proof.
  revert o. induction rs as [|[[m c] b] rs IH]; intros o Hs; [done|].
  rewrite sightings_cons in Hs. rewrite see_all_cons.
  destruct (decide (m = n)) as [->|Hne].
  - exists c, b. split; [apply list_elem_of_here|].
    assert (n ∉ map obs_name rs) as Hout.
    { intros Hin. apply sightings_elem in Hin. lia. }
    rewrite see_all_unseen by done. simpl. f_equal. lia.
  - destruct (IH o) as (c' & b' & Hin & Heq); [lia|].
    exists c', b'. split; [by apply list_elem_of_further|done].
Qed.

Lemma call_seen_once n em rs fn now :
  NoDup (map fst (current_state em)) ->
  sightings n rs = 1%nat ->
  let em' := fst (process_recognition_results em rs fn now) in
  let evs := snd (process_recognition_results em rs fn now) in
  exists c b,
    (n, c, b) ∈ rs
    ∧ em_departed_frames em' = em_departed_frames em
    ∧ debounce_frames em' = debounce_frames em
    ∧ lookup_state n (current_state em') =
      Some (fst (see (debounce_frames em) n c b
                   (lookup_state n (current_state em))))
    ∧ announces n evs =
      (if snd (see (debounce_frames em) n c b
                 (lookup_state n (current_state em)))
       then 1%nat else 0%nat)
    ∧ departures n evs = 0%nat
    ∧ no_faces_events evs = 0%nat.
Proof.
  intros Hnd Hs.
  destruct (call_person n em rs fn now Hnd)
    as (Hd & Ht & Hlk & Ha & Hdp & _ & Hnf).
  unfold person_step in *.
  rewrite bool_decide_eq_true_2 in *
    by (apply sightings_elem; lia).
  destruct (see_all_once (debounce_frames em) n rs
              (lookup_state n (current_state em)) Hs)
    as (c & b & Hin & Heq).
  rewrite Heq in *. simpl in *. exists c, b.
  split_and!; try done. apply Hnf. left. intros ->.
  by apply elem_of_nil in Hin.
Qed.

(** C8: for a tracked person whose announce event has fired, a run of
    calls that do not show it and that brings [departed_frames] up to the
    departure threshold emits [PERSON_DEPARTED] for it exactly once, in
    the last call of the run, and removes its state; a call that then
    shows it once creates the state of a person never seen before
    ([consecutive_frames = 1], [event_triggered] false). *)
Theorem departure_at_threshold em cycles n s :
  wf em ->
  lookup_state n (current_state em) = Some s ->
  event_triggered s = true ->
  0 ≤ departed_frames s < em_departed_frames em ->
  length cycles = Z.to_nat (em_departed_frames em - departed_frames s) ->
  Forall (unseen n) cycles ->
  let em' := fst (run em cycles) in
  lookup_state n (current_state em') = None
  ∧ map (departures n) (snd (run em cycles)) =
    replicate (length cycles - 1) 0%nat ++ [1%nat]
  ∧ forall rs fn now,
      sightings n rs = 1%nat ->
      exists c b,
        (n, c, b) ∈ rs
        ∧ lookup_state n
            (current_state (fst (process_recognition_results em' rs fn now)))
          = Some (new_person n c b).
Proof.
  revert em s.
  induction cycles as [|[[rs fn] now] cycles IH];
    intros em s Hwf Hlk Htr Hrange Hlen Hun.
  - simpl in Hlen. lia.
  - apply Forall_cons in Hun as [Hun1 Hun].
    rewrite run_cons. cbn [fst snd].
    destruct (call_unseen n em rs fn now (proj1 Hwf) Hun1)
      as (Ht1 & _ & Hlk1 & _ & Hdp1 & _).
    pose proof (call_wf em rs fn now Hwf) as Hwf1.
    rewrite Hlk in Hlk1, Hdp1. simpl in Hlk1, Hdp1. rewrite Htr in Hlk1, Hdp1.
    destruct (decide (departed_frames s + 1 = em_departed_frames em))
      as [Hlast|Hmore].
    + rewrite bool_decide_eq_true_2 in Hlk1, Hdp1 by done.
      simpl in Hlk1, Hdp1.
      assert (cycles = []) as ->.
      { apply length_zero_iff_nil. simpl in Hlen. lia. }
      simpl. split_and!; [done|by rewrite Hdp1|].
      intros rs' fn' now' Hs'.
      destruct (call_seen_once n _ rs' fn' now' (proj1 Hwf1) Hs')
        as (c & b & Hin & _ & _ & Hlk' & _).
      exists c, b. split; [done|]. by rewrite Hlk', Hlk1.
    + rewrite bool_decide_eq_false_2 in Hlk1, Hdp1 by done.
      simpl in Hlk1, Hdp1.
      destruct (IH _ (not_seen s) Hwf1 Hlk1 Htr) as (Hnone & Hmap & Hre).
      * rewrite Ht1. simpl. lia.
      * rewrite Ht1. simpl. simpl in Hlen. lia.
      * done.
      * split_and!; [done| |done].
        cbn [map length]. rewrite Hmap, Hdp1.
        assert (length cycles ≠ 0%nat) as Hpos.
        { simpl in Hlen. lia. }
        by replace (S (length cycles) - 1)%nat
          with (S (length cycles - 1)) by lia.
Qed.

(** *** Announce events *)

Lemma see_slack d n c b o :
  ((if snd (see d n c b o) then 1 else 0)
   + slack (Some (fst (see d n c b o))) ≤ slack o)%nat.
Proof.
  unfold see, slack. destruct o as [s|]; simpl; [|lia].
  destruct (event_triggered s) eqn:Htr; simpl.
  - rewrite andb_false_r. simpl. rewrite Htr. lia.
  - rewrite andb_true_r.
    destruct (bool_decide _); simpl; rewrite ?Htr; lia.
Qed.

Lemma see_all_slack d n rs o :
  (snd (see_all d n rs o) + slack (fst (see_all d n rs o)) ≤ slack o)%nat.
Proof.
  revert o. induction rs as [|[[m c] b] rs IH]; intros o; [simpl; lia|].
  rewrite see_all_cons. destruct (decide (m = n)); [|apply IH].
  simpl. pose proof (see_slack d n c b o).
  pose proof (IH (Some (fst (see d n c b o)))). lia.
Qed.

Lemma run_presence_slack n cycles em :
  wf em ->
  Forall (seen n) cycles ->
  (sum_list (map (announces n) (snd (run em cycles)))
   + slack (lookup_state n (current_state (fst (run em cycles))))
   ≤ slack (lookup_state n (current_state em)))%nat.
Proof.
  revert em. induction cycles as [|[[rs fn] now] cycles IH]; intros em Hwf Hs.
  - simpl. lia.
  - apply Forall_cons in Hs as [Hs1 Hs].
    rewrite run_cons. cbn [fst snd map].
    match goal with
    | |- context [sum_list (?x :: ?l)] =>
        change (sum_list (x :: l)) with (x + sum_list l)%nat
    end.
    destruct (call_person n em rs fn now (proj1 Hwf))
      as (_ & _ & Hlk & Ha & _).
    unfold person_step in Hlk, Ha.
    rewrite bool_decide_eq_true_2 in Hlk, Ha by by apply sightings_elem.
    simpl in Hlk, Ha.
    pose proof (IH _ (call_wf em rs fn now Hwf) Hs) as IH'.
    rewrite Hlk in IH'. rewrite Ha.
    pose proof (see_all_slack (debounce_frames em) n rs
                  (lookup_state n (current_state em))).
    lia.
Qed.

Ltac fires_cases :=
  repeat case_bool_decide; simpl; try done; try lia;
  try (exfalso;
       match goal with
       | H : ¬ is_Some (Some _) |- _ => apply H; by eexists
       | H : is_Some None |- _ => by destruct H
       | H : ¬ (_ ≠ _) |- _ => apply H; lia
       end).

Lemma fires_at_first d n c b o :
  snd (see d n c b o) = fires_at d o 0.
Proof.
  unfold see, fires_at. destruct o as [s|]; simpl.
  - destruct (event_triggered s); simpl; fires_cases.
  - fires_cases.
Qed.

Lemma fires_at_next d n c b o i :
  fires_at d (Some (fst (see d n c b o))) i = fires_at d o (S i).
Proof.
  unfold see, fires_at. destruct o as [s|]; simpl.
  - destruct (event_triggered s) eqn:Htr; simpl; rewrite ?Htr; simpl.
    + rewrite andb_false_r. simpl. by rewrite Htr.
    + destruct (bool_decide (consecutive_frames s + 1 = d)) eqn:Hd;
        simpl; rewrite ?Htr; simpl.
      * apply bool_decide_eq_true in Hd. fires_cases.
      * apply bool_decide_eq_false in Hd. fires_cases.
  - fires_cases.
Qed.

Lemma run_seen_once n cycles em i evs :
  wf em ->
  Forall (seen_once n) cycles ->
  snd (run em cycles) !! i = Some evs ->
  announces n evs =
  if fires_at (debounce_frames em) (lookup_state n (current_state em)) i
  then 1%nat else 0%nat.
Proof.
  revert em i.
  induction cycles as [|[[rs fn] now] cycles IH]; intros em i Hwf Hs Hi.
  - done.
  - apply Forall_cons in Hs as [Hs1 Hs].
    rewrite run_cons in Hi. cbn [fst snd] in Hi.
    destruct (call_seen_once n em rs fn now (proj1 Hwf) Hs1)
      as (c & b & _ & _ & Hd & Hlk & Ha & _).
    destruct i as [|i]; simpl in Hi.
    + injection Hi as <-. by rewrite Ha, (fires_at_first _ n c b).
    + rewrite (IH _ _ (call_wf em rs fn now Hwf) Hs Hi).
      by rewrite Hd, Hlk, fires_at_next.
Qed.

(** C2, as the code has it: over a run of calls that all show a name, its
    announce event ([PERSON_RECOGNIZED], or [PERSON_UNKNOWN] for
    "unknown") is emitted at most once; when each call shows the name
    once, a name announced before the run (and not departed since) is not
    announced again, and, the debounce threshold being at least 2, a name
    not yet announced is announced in exactly the call in which its
    [consecutive_frames] reaches the threshold, also when the run begins
    after a short absence. *)
Theorem announce_once_per_presence_run em cycles n :
  wf em ->
  let o := lookup_state n (current_state em) in
  let evss := snd (run em cycles) in
  (Forall (seen n) cycles ->
   (sum_list (map (announces n) evss) ≤ 1)%nat)
  ∧ (Forall (seen_once n) cycles ->
     forall i evs, evss !! i = Some evs ->
       (announced o = true -> announces n evs = 0%nat)
       ∧ (announced o = false -> 2 ≤ debounce_frames em ->
          announces n evs =
          if decide (tracked_count o + Z.of_nat i + 1 = debounce_frames em)
          then 1%nat else 0%nat)).
Proof.
  intros Hwf o evss. split.
  - intros Hs. pose proof (run_presence_slack n cycles em Hwf Hs) as H.
    fold evss in H. unfold slack in H at 2.
    destruct (announced _); lia.
  - intros Hs i evs Hi.
    rewrite (run_seen_once n cycles em i evs Hwf Hs Hi). fold o.
    unfold fires_at. split.
    + by intros ->.
    + intros -> Hd. simpl. case_decide.
      * destruct o as [s|]; simpl in *; fires_cases.
      * fires_cases.
Qed.

(** *** Re-submitted frames *)

Lemma see_all_count d n rs s :
  exists s',
    fst (see_all d n rs (Some s)) = Some s'
    ∧ consecutive_frames s' =
      consecutive_frames s + Z.of_nat (sightings n rs).
Proof.
  revert s. induction rs as [|[[m c] b] rs IH]; intros s.
  - exists s. simpl. split; [done|]. unfold sightings. simpl. lia.
  - rewrite see_all_cons, sightings_cons.
    destruct (decide (m = n)) as [->|Hne]; simpl.
    + destruct (IH (fst (see d n c b (Some s)))) as (s' & Hs' & Hc).
      exists s'. split; [done|]. rewrite Hc. unfold see. simpl.
      destruct (bool_decide _ && negb _); simpl; lia.
    + apply IH.
Qed.

(** C4, as the code has it: the tracker does not compare frame numbers,
    so a second call with the same results and the same frame number
    counts as one more frame: a name in the results has its
    [consecutive_frames] advanced again by its number of sightings, and a
    tracked name that is not in the results either departs or has its
    [departed_frames] advanced again by one. *)
Theorem resubmission_counts_again em rs k now now' n :
  wf em ->
  let em1 := fst (process_recognition_results em rs (Some k) now) in
  let em2 := fst (process_recognition_results em1 rs (Some k) now') in
  (sightings n rs ≠ 0%nat ->
   exists s1 s2,
     lookup_state n (current_state em1) = Some s1
     ∧ lookup_state n (current_state em2) = Some s2
     ∧ consecutive_frames s2 =
       consecutive_frames s1 + Z.of_nat (sightings n rs))
  ∧ (sightings n rs = 0%nat ->
     forall s1,
       lookup_state n (current_state em1) = Some s1 ->
       lookup_state n (current_state em2) = None
       ∨ exists s2,
           lookup_state n (current_state em2) = Some s2
           ∧ departed_frames s2 = departed_frames s1 + 1).
Proof.
  intros Hwf em1 em2.
  pose proof (call_wf em rs (Some k) now Hwf) as Hwf1. fold em1 in Hwf1.
  split.
  - intros Hs. apply sightings_elem in Hs.
    destruct (call_person n em rs (Some k) now (proj1 Hwf))
      as (_ & _ & Hlk1 & _).
    destruct (call_person n em1 rs (Some k) now' (proj1 Hwf1))
      as (_ & _ & Hlk2 & _).
    fold em1 in Hlk1. fold em2 in Hlk2. unfold person_step in Hlk1, Hlk2.
    rewrite bool_decide_eq_true_2 in Hlk1, Hlk2 by done.
    simpl in Hlk1, Hlk2.
    destruct (see_all_fresh (debounce_frames em) n rs
                (lookup_state n (current_state em)) Hs) as (s1 & Hs1 & _).
    { intros s0. apply wf_person_lookup, Hwf. }
    rewrite Hs1 in Hlk1. rewrite Hlk1 in Hlk2.
    destruct (see_all_count (debounce_frames em1) n rs s1) as (s2 & Hs2 & Hc).
    rewrite Hs2 in Hlk2. by exists s1, s2.
  - intros Hs s1 Hlk1.
    destruct (call_unseen n em1 rs (Some k) now' (proj1 Hwf1) Hs)
      as (_ & _ & Hlk2 & _).
    fold em2 in Hlk2. rewrite Hlk1 in Hlk2. simpl in Hlk2.
    destruct (bool_decide _ && event_triggered s1); simpl in Hlk2.
    + by left.
    + right. by exists (not_seen s1).
Qed.

(** *** The scenarios of the event system *)

Import Scenarios.

Lemma tracker_after_2_wf : wf tracker_after_2.
Proof.
  split.
  - vm_compute. apply NoDup_singleton.
  - vm_compute. repeat constructor; discriminate.
Defined.

Lemma tracker_after_3_wf : wf tracker_after_3.
Proof.
  split.
  - vm_compute. apply NoDup_singleton.
  - vm_compute. repeat constructor; discriminate.
Defined.

Lemma tracker_wf : wf tracker.
Proof. split; [apply NoDup_nil_2|apply Forall_nil_2]. Defined.

(** Scenario A: Alice is shown in frames 1 to 3: one [PERSON_RECOGNIZED],
    in frame 3. *)
Example scenario_A :
  map (map (fun e => (event_type e, person_name e, frame_number e)))
    (snd (run tracker [present 1; present 2; present 3; present 4]))
  = [[]; []; [(PERSON_RECOGNIZED, "Alice"%string, 3)]; []].
Proof. vm_compute. reflexivity. Qed.

(** Scenario B: three frames without Alice after scenario A: one
    [PERSON_DEPARTED], in the third, and the dict is empty. *)
Example scenario_B :
  map (map (fun e => (event_type e, person_name e, frame_number e)))
    (snd (run tracker_after_3 [absent 4; absent 5; absent 6]))
  = [[]; []; [(PERSON_DEPARTED, "Alice"%string, 6);
              (NO_FACES, ""%string, 6)]]
  ∧ current_state (fst (run tracker_after_3 [absent 4; absent 5; absent 6]))
    = [].
Proof. vm_compute. split; reflexivity. Qed.

(** With a threshold of 1 a person seen for the first time is entered with
    [consecutive_frames = 1] and no event: the first loop compares the
    counter with the threshold only for a person already tracked. *)
Example threshold_one_first_sight :
  snd (run (init 1 3 100) [present 1; present 2]) = [[]; []]
  ∧ consecutive_frames
      <$> lookup_state "Alice"
            (current_state (fst (run (init 1 3 100) [present 1])))
    = Some 1.
Proof. vm_compute. split; reflexivity. Qed.

(** C2 fails as stated: Alice is announced in frame 3, missing in frame 4
    (departure threshold 3) and shown again in frames 5 to 7; her counter
    reaches the debounce threshold 3 in frame 7 and nothing is announced
    in frames 5 to 7. *)
Lemma no_announce_after_brief_absence :
  let r := run tracker [present 1; present 2; present 3; absent 4;
                        present 5; present 6; present 7] in
  debounce_frames tracker = 3
  ∧ em_departed_frames tracker = 3
  ∧ map (announces "Alice") (snd r) = [0; 0; 1; 0; 0; 0; 0]%nat
  ∧ consecutive_frames <$> lookup_state "Alice" (current_state (fst r))
    = Some 3.
Proof. vm_compute. split_and!; reflexivity. Qed.

(** C4 fails as stated: after frames 1 and 2 Alice's counter is 2; frame 2
    submitted once more brings it to the threshold 3 and announces her. *)
Lemma resubmitted_frame_counted_twice :
  let r := process_recognition_results tracker_after_2 [alice] (Some 2)
             clock0 in
  consecutive_frames
    <$> lookup_state "Alice" (current_state tracker_after_2) = Some 2
  ∧ consecutive_frames <$> lookup_state "Alice" (current_state (fst r))
    = Some 3
  ∧ map (fun e => (event_type e, person_name e, frame_number e)) (snd r)
    = [(PERSON_RECOGNIZED, "Alice"%string, 2)].
Proof. vm_compute. split_and!; reflexivity. Qed.

Lemma presence_absence_invariant_witness :
  0 < consecutive_frames alice_first <-> departed_frames alice_first = 0.
Proof.
  apply (presence_absence_invariant tracker [alice] (Some 1) clock0
           "Alice" alice_first).
  - exact tracker_wf.
  - vm_compute. apply list_elem_of_here.
Defined.

Lemma unannounced_never_removed_witness :
  exists s',
    lookup_state "Alice"
      (current_state
         (fst (run tracker_after_2
                 [absent 3; absent 4; absent 5; absent 6]))) = Some s'
    ∧ event_triggered s' = false
    ∧ departed_frames s' = 0 + Z.of_nat 4
    ∧ Forall (fun evs => departures "Alice" evs = 0%nat
                         ∧ no_faces_events evs = 0%nat)
        (snd (run tracker_after_2
                [absent 3; absent 4; absent 5; absent 6])).
Proof.
  apply (unannounced_never_removed tracker_after_2
           [absent 3; absent 4; absent 5; absent 6] "Alice" alice_pending).
  - exact tracker_after_2_wf.
  - vm_compute. reflexivity.
  - reflexivity.
  - repeat constructor.
Defined.

Lemma departure_at_threshold_witness :
  lookup_state "Alice"
    (current_state
       (fst (run tracker_after_3 [absent 4; absent 5; absent 6]))) = None
  ∧ map (departures "Alice")
      (snd (run tracker_after_3 [absent 4; absent 5; absent 6]))
    = [0; 0; 1]%nat.
Proof.
  destruct (departure_at_threshold tracker_after_3
              [absent 4; absent 5; absent 6] "Alice" alice_announced)
    as (H1 & H2 & _).
  - exact tracker_after_3_wf.
  - vm_compute. reflexivity.
  - reflexivity.
  - vm_compute. split; [discriminate|reflexivity].
  - reflexivity.
  - repeat constructor.
  - split; [exact H1|exact H2].
Defined.

Lemma announce_once_per_presence_run_witness :
  (sum_list
     (map (announces "Alice")
        (snd (run tracker [present 1; present 2; present 3]))) ≤ 1)%nat.
Proof.
  destruct (announce_once_per_presence_run tracker
              [present 1; present 2; present 3] "Alice" tracker_wf)
    as [H _].
  apply H. repeat constructor; vm_compute; discriminate.
Defined.

Lemma resubmission_counts_again_witness :
  exists s1 s2,
    lookup_state "Alice"
      (current_state
         (fst (process_recognition_results tracker_after_2 [alice] (Some 3)
                 clock0))) = Some s1
    ∧ lookup_state "Alice"
        (current_state
           (fst (process_recognition_results
                   (fst (process_recognition_results tracker_after_2 [alice]
                           (Some 3) clock0))
                   [alice] (Some 3) clock0))) = Some s2
    ∧ consecutive_frames s2 =
      consecutive_frames s1 + Z.of_nat (sightings "Alice" [alice]).
Proof.
  destruct (resubmission_counts_again tracker_after_2 [alice] 3 clock0 clock0
              "Alice" tracker_after_2_wf) as [H _].
  apply H. vm_compute. discriminate.
Defined.

End EventsFacts.

(* ===================================================================== *)
(** ** Properties of the behavior scheduler *)
(* ===================================================================== *)

Module BehaviorsFacts.

Import Behaviors.

(** C1: [execute_behavior] accepts when nothing is running; with a
    behavior running it accepts exactly when that behavior is
    interruptible and the new priority is strictly greater; an accepted
    behavior becomes the current one, and on refusal the manager is left
    as it was. *)
Theorem execute_behavior_rule bm behavior :
  let bm' := fst (execute_behavior bm behavior) in
  let ok := snd (execute_behavior bm behavior) in
  match current_behavior bm with
  | None =>
      ok = true
      ∧ current_behavior bm' = Some behavior
      ∧ behavior_thread bm' = Some (mkThread behavior true)
  | Some cur =>
      ok = interruptible cur && bool_decide (priority cur < priority behavior)
      ∧ (ok = true -> current_behavior bm' = Some behavior)
      ∧ (ok = false -> bm' = bm)
  end.
Proof.
  unfold execute_behavior.
  destruct (current_behavior bm) as [cur|] eqn:Hcur; simpl; [|done].
  destruct (interruptible cur); simpl.
  - destruct (decide (priority behavior ≤ priority cur)) as [Hle|Hgt].
    + rewrite bool_decide_eq_true_2 by done.
      rewrite bool_decide_eq_false_2 by lia. done.
    + rewrite bool_decide_eq_false_2 by done.
      rewrite bool_decide_eq_true_2 by lia. done.
  - done.
Qed.

(** Scenario C: an interruptible behavior of priority 2 is running; a
    behavior of priority 2 is refused and nothing changes; a behavior of
    priority 5 is accepted, the stop flag having been raised for the
    running worker. *)
Example scenario_C :
  execute_behavior Scenarios.scheduler_busy (mkBehavior "same" [] true 2)
  = (Scenarios.scheduler_busy, false)
  ∧ snd (execute_behavior Scenarios.scheduler_busy
           (mkBehavior "urgent" [] true 5)) = true
  ∧ stop_flag (stop_current Scenarios.scheduler_busy) = true
  ∧ behaviors_interrupted
      (fst (execute_behavior Scenarios.scheduler_busy
              (mkBehavior "urgent" [] true 5))) = 1.
Proof. vm_compute. split_and!; reflexivity. Qed.

End BehaviorsFacts.

(* ===================================================================== *)
(** ** Properties of the greeting coordinator *)
(* ===================================================================== *)

Module CoordinationFacts.

Import Events Coordination.

(** *** One greeting *)

Lemma served_app cs cs' : served (cs ++ cs') = served cs ++ served cs'.
Proof. apply omap_app. Qed.

Lemma scheduler_calls_app cs cs' :
  scheduler_calls (cs ++ cs') = (scheduler_calls cs + scheduler_calls cs')%nat.
Proof. unfold scheduler_calls. by rewrite List.filter_app, length_app. Qed.

Lemma speech_calls_app cs cs' :
  speech_calls (cs ++ cs') = (speech_calls cs + speech_calls cs')%nat.
Proof. unfold speech_calls. by rewrite List.filter_app, length_app. Qed.

(** What a greeting leaves alone, and what it adds. *)
Lemma execute_greeting_effect genv gc event :
  let gc' := state_of (_execute_greeting genv gc event) in
  pending_greetings gc' = pending_greetings gc
  ∧ greeting_in_progress gc' = greeting_in_progress gc
  ∧ event_manager gc' = event_manager gc
  ∧ greeted_persons gc ⊆ greeted_persons gc'
  ∧ greeted_persons gc' ⊆ {[ person_name event ]} ∪ greeted_persons gc
  ∧ exists extra,
      calls gc' = calls gc ++ LogGreeting event :: extra
      ∧ served extra = []
      ∧ scheduler_calls extra = 1%nat.
Proof.
  unfold _execute_greeting, speak.
  destruct (Behaviors.execute_behavior _ _) as [bm started]. simpl.
  destruct (use_enhanced_voice gc && adaptive_tts gc && greeting_selector gc);
    [|destruct (tts_manager gc)];
    destruct (speech genv); simpl;
    (split_and!; [done|done|done|set_solver|set_solver|]);
    eexists; rewrite <- ?app_assoc; simpl; split_and!; reflexivity.
Qed.

(** *** Duplicates, failures, resets *)

(** C6: a [PERSON_RECOGNIZED] event for a person already in
    [greeted_persons] changes nothing: no request to the scheduler, none
    to a speech backend, and every attribute as before. *)
Theorem greeted_person_is_skipped env gc event :
  person_name event ∈ greeted_persons gc ->
  let gc' := _on_person_recognized env gc event in
  gc' = gc
  ∧ scheduler_calls (calls gc') = scheduler_calls (calls gc)
  ∧ speech_calls (calls gc') = speech_calls (calls gc)
  ∧ behavior_manager gc' = behavior_manager gc
  ∧ greeted_persons gc' = greeted_persons gc
  ∧ pending_greetings gc' = pending_greetings gc
  ∧ total_greetings gc' = total_greetings gc
  ∧ latencies gc' = latencies gc.
Proof.
  intros Hin. unfold _on_person_recognized.
  rewrite decide_True by done. split_and!; reflexivity.
Qed.

(** C9: [reset_session] empties [greeted_persons] and
    [pending_greetings] and leaves every other attribute as it was: the
    in-progress flag, the counters and latency statistics, the delay, the
    event manager with its registered callbacks, the behavior manager with
    its running behavior, and the record of calls (nothing is asked of
    the scheduler). *)
Theorem reset_session_clears_only_session gc :
  let gc' := reset_session gc in
  greeted_persons gc' = ∅
  ∧ pending_greetings gc' = []
  ∧ greeting_in_progress gc' = greeting_in_progress gc
  ∧ total_greetings gc' = total_greetings gc
  ∧ latencies gc' = latencies gc
  ∧ avg_latency gc' = avg_latency gc
  ∧ max_latency gc' = max_latency gc
  ∧ min_latency gc' = min_latency gc
  ∧ gesture_speech_delay gc' = gesture_speech_delay gc
  ∧ event_manager gc' = event_manager gc
  ∧ behavior_manager gc' = behavior_manager gc
  ∧ use_enhanced_voice gc' = use_enhanced_voice gc
  ∧ tts_manager gc' = tts_manager gc
  ∧ adaptive_tts gc' = adaptive_tts gc
  ∧ greeting_selector gc' = greeting_selector gc
  ∧ session_start gc' = session_start gc
  ∧ calls gc' = calls gc.
Proof. split_and!; reflexivity. Qed.

Lemma speak_raises genv gc event :
  (use_enhanced_voice gc && adaptive_tts gc && greeting_selector gc)
  || tts_manager gc = true ->
  speech genv = SpeechRaises ->
  exists c, is_speech_call c = true
    ∧ speak genv gc event = Raised (did c gc).
Proof.
  intros Htts Hraise. unfold speak. rewrite Hraise.
  destruct (use_enhanced_voice gc && adaptive_tts gc && greeting_selector gc).
  - by eexists (SpeakEnhanced _).
  - simpl in Htts. rewrite Htts. by eexists (SpeakLegacy _).
Qed.

Lemma execute_greeting_raises genv gc event :
  (use_enhanced_voice gc && adaptive_tts gc && greeting_selector gc)
  || tts_manager gc = true ->
  speech genv = SpeechRaises ->
  exists bm started c,
    is_speech_call c = true
    ∧ _execute_greeting genv gc event
      = Raised (did c (did (Sleep (gesture_speech_delay gc))
                  (did (Gesture Behaviors.greeting_wave started)
                     (set_behavior_manager bm
                        (did (LogGreeting event) gc))))).
Proof.
  intros Htts Hraise. unfold _execute_greeting.
  destruct (Behaviors.execute_behavior _ _) as [bm started].
  match goal with
  | |- context [speak genv ?g event] =>
      destruct (speak_raises genv g event Htts Hraise) as (c & Hc & ->)
  end.
  by exists bm, started, c.
Qed.

Lemma process_pending_nil env gc :
  pending_greetings gc = [] -> _process_pending_greetings env gc = gc.
Proof.
  intros H. unfold _process_pending_greetings. rewrite H. simpl.
  by rewrite H.
Qed.

Lemma served_speech_call c : is_speech_call c = true -> served [c] = [].
Proof. by destruct c. Qed.

Lemma scheduler_speech_call c :
  is_speech_call c = true -> scheduler_calls [c] = 0%nat.
Proof. by destruct c. Qed.

Lemma speech_speech_call c :
  is_speech_call c = true -> speech_calls [c] = 1%nat.
Proof. by destruct c. Qed.

(** C3, as the code has it: when the speech call of a greeting raises,
    the exception leaves [_execute_greeting] before the person is marked
    and before the latency is recorded, and is caught in
    [_on_person_recognized]: the flag is cleared, [greeted_persons], the
    counter and the latency statistics are as before, the gesture and the
    speech call have been made, and the same event delivered again is
    greeted again. *)
Theorem speech_exception_leaves_person_ungreeted env gc event :
  person_name event ∉ greeted_persons gc ->
  greeting_in_progress gc = false ->
  pending_greetings gc = [] ->
  (use_enhanced_voice gc && adaptive_tts gc && greeting_selector gc)
  || tts_manager gc = true ->
  speech (env (length (calls gc))) = SpeechRaises ->
  let gc' := _on_person_recognized env gc event in
  greeted_persons gc' = greeted_persons gc
  ∧ total_greetings gc' = total_greetings gc
  ∧ latencies gc' = latencies gc
  ∧ avg_latency gc' = avg_latency gc
  ∧ max_latency gc' = max_latency gc
  ∧ min_latency gc' = min_latency gc
  ∧ greeting_in_progress gc' = false
  ∧ pending_greetings gc' = []
  ∧ served (calls gc') = served (calls gc) ++ [event]
  ∧ scheduler_calls (calls gc') = S (scheduler_calls (calls gc))
  ∧ speech_calls (calls gc') = S (speech_calls (calls gc))
  ∧ forall env',
      served (calls (_on_person_recognized env' gc' event))
      = served (calls gc') ++ [event].
Proof.
  intros Hng Hip Hpend Htts Hraise.
  assert (Hgc' : exists bm started c,
    is_speech_call c = true
    ∧ _on_person_recognized env gc event
      = set_greeting_in_progress false
          (did c (did (Sleep (gesture_speech_delay gc))
             (did (Gesture Behaviors.greeting_wave started)
                (set_behavior_manager bm
                   (did (LogGreeting event)
                      (set_greeting_in_progress true gc))))))).
  { unfold _on_person_recognized. rewrite decide_False by done.
    rewrite Hip. unfold finish_greeting.
    destruct (execute_greeting_raises
                (env (length (calls (set_greeting_in_progress true gc))))
                (set_greeting_in_progress true gc) event Htts Hraise)
      as (bm & started & c & Hc & ->).
    cbn [state_of]. rewrite process_pending_nil by exact Hpend.
    by exists bm, started, c. }
  destruct Hgc' as (bm & started & c & Hc & Heq).
  cbv zeta. rewrite Heq. clear Heq.
  set (gcx := set_greeting_in_progress false _).
  assert (Hcalls : calls gcx
                   = calls gc ++ [LogGreeting event]
                       ++ [Gesture Behaviors.greeting_wave started]
                       ++ [Sleep (gesture_speech_delay gc)] ++ [c]).
  { subst gcx. cbn [calls did set_greeting_in_progress set_behavior_manager].
    by rewrite <- !app_assoc. }
  assert (Hserved : served (calls gcx) = served (calls gc) ++ [event]).
  { rewrite Hcalls, !served_app, (served_speech_call c Hc). done. }
  split_and!; try reflexivity; try exact Hpend; try exact Hserved.
  - rewrite Hcalls, !scheduler_calls_app, (scheduler_speech_call c Hc).
    change (scheduler_calls [LogGreeting event]) with 0%nat.
    change (scheduler_calls [Gesture Behaviors.greeting_wave started])
      with 1%nat.
    change (scheduler_calls [Sleep (gesture_speech_delay gc)]) with 0%nat.
    lia.
  - rewrite Hcalls, !speech_calls_app, (speech_speech_call c Hc).
    change (speech_calls [LogGreeting event]) with 0%nat.
    change (speech_calls [Gesture Behaviors.greeting_wave started])
      with 0%nat.
    change (speech_calls [Sleep (gesture_speech_delay gc)]) with 0%nat.
    lia.
  - intros env'. unfold _on_person_recognized.
    rewrite decide_False by exact Hng.
    change (greeting_in_progress gcx) with false. cbv iota.
    unfold finish_greeting.
    match goal with
    | |- context [_execute_greeting ?g ?c0 event] =>
        destruct (execute_greeting_effect g c0 event)
          as (Hp2 & _ & _ & _ & _ & extra & Hc2 & Hs2 & _);
        set (gc2 := state_of (_execute_greeting g c0 event)) in *
    end.
    rewrite process_pending_nil by (rewrite <- Hpend; exact Hp2).
    cbn [calls set_greeting_in_progress] in Hc2 |- *.
    rewrite Hc2.
    change (LogGreeting event :: extra) with ([LogGreeting event] ++ extra).
    rewrite !served_app, Hs2. by rewrite app_nil_r.
Qed.

(** *** The pending queue *)






#[local] Instance by_confidence_trans : Transitive by_confidence.
Proof.
  intros a b c Hab Hbc. unfold by_confidence in *. by eapply Qle_trans.
Qed.










Section Drain.

Variable env : nat -> GreetingEnv.




End Drain.



(** *** Scenarios *)

(** Scenario D: Bob (0.88) and then Charlie (0.92) arrive while Alice is
    being greeted; both are queued, and after Alice Charlie is greeted
    first. *)
Example scenario_D :
  let queued := arrivals Scenarios.all_well Scenarios.coordinator_busy
                  [Scenarios.bob_event; Scenarios.charlie_event] in
  pending_greetings queued = [Scenarios.bob_event; Scenarios.charlie_event]
  ∧ calls queued = []
  ∧ served (calls (during_greeting Scenarios.all_well Scenarios.coordinator
                     Scenarios.alice_event
                     [Scenarios.bob_event; Scenarios.charlie_event]))
    = [Scenarios.alice_event; Scenarios.charlie_event; Scenarios.bob_event].
Proof. vm_compute. split_and!; reflexivity. Qed.


(** C3 fails as stated: with a speech backend that raises, Alice's
    greeting makes the gesture and the speech call, and afterwards Alice
    is not in [greeted_persons], no latency has been recorded and the
    counter is still 0. *)
Lemma speech_failure_person_not_greeted :
  let gc' := _on_person_recognized Scenarios.speech_broken
               Scenarios.coordinator Scenarios.alice_event in
  speech (Scenarios.speech_broken 0%nat) = SpeechRaises
  ∧ scheduler_calls (calls gc') = 1%nat
  ∧ speech_calls (calls gc') = 1%nat
  ∧ has_greeted gc' "Alice" = false
  ∧ latencies gc' = []
  ∧ total_greetings gc' = 0
  ∧ min_latency gc' = None.
Proof. vm_compute. split_and!; reflexivity. Qed.

Lemma speech_exception_leaves_person_ungreeted_witness :
  let gc' := _on_person_recognized Scenarios.speech_broken
               Scenarios.coordinator Scenarios.alice_event in
  greeted_persons gc' = greeted_persons Scenarios.coordinator
  ∧ total_greetings gc' = total_greetings Scenarios.coordinator
  ∧ latencies gc' = latencies Scenarios.coordinator.
Proof.
  destruct (speech_exception_leaves_person_ungreeted
              Scenarios.speech_broken Scenarios.coordinator
              Scenarios.alice_event) as (H1 & H2 & H3 & _).
  - apply not_elem_of_empty.
  - reflexivity.
  - reflexivity.
  - reflexivity.
  - reflexivity.
  - exact (conj H1 (conj H2 H3)).
Defined.

Lemma greeted_person_is_skipped_witness :
  _on_person_recognized Scenarios.all_well Scenarios.coordinator_greeted
    Scenarios.alice_event = Scenarios.coordinator_greeted.
Proof.
  apply (greeted_person_is_skipped Scenarios.all_well
           Scenarios.coordinator_greeted Scenarios.alice_event).
  unfold Scenarios.coordinator_greeted. simpl.
  apply elem_of_singleton_2. reflexivity.
Defined.

End CoordinationFacts.

(* ===================================================================== *)
(** ** Further properties of the event system *)
(* ===================================================================== *)

Module EventsQueriesFacts.

Import Events EventsFacts.

(** *** What one call appends *)

Lemma count_events_snoc ty l e :
  count_events ty (l ++ [e])
  = (count_events ty l + if bool_decide (event_type e = ty) then 1 else 0)%nat.
Proof.
  apply (filter_length_snoc (fun e => bool_decide (event_type e = ty))).
Qed.

Lemma history_after_snoc m h evs e :
  history_after m h (evs ++ [e]) = keep_last m (history_after m h evs ++ [e]).
Proof. unfold history_after. by rewrite foldl_app. Qed.

Lemma metrics_after_nil m : metrics_after m [] = m.
Proof.
  destruct m. unfold metrics_after, count_events. simpl. f_equal; lia.
Qed.

Lemma metrics_after_snoc_other m evs e :
  event_type e ≠ PERSON_RECOGNIZED -> event_type e ≠ PERSON_UNKNOWN ->
  metrics_after m (evs ++ [e]) = metrics_after m evs.
Proof.
  intros H1 H2. unfold metrics_after. rewrite !count_events_snoc.
  rewrite !bool_decide_eq_false_2 by done. f_equal; lia.
Qed.

Section Trace.

Variable fnum : Z.
Variable now : nat -> Q.
Variable em : EventManager.

Lemma observe_trace fr r :
  frame_trace fnum em fr -> frame_trace fnum em (observe fnum now fr r).
Proof.
  intros (Hs & Hh & Hm & Hall). destruct r as [[m c] b].
  pose proof (observe_settings fnum now fr (m, c, b)) as Hs'.
  split; [by eapply same_settings_trans|]. clear Hs'.
  destruct Hs as (_ & _ & Hmax & _).
  observe_cases fr m c b; try done.
  rewrite Hmax, Hh, Hm. split_and!.
  - by rewrite history_after_snoc.
  - unfold metrics_after. rewrite !count_events_snoc. simpl.
    destruct (decide (m = "unknown"%string)); simpl;
      rewrite ?bool_decide_eq_true_2, ?bool_decide_eq_false_2 by done;
      f_equal; lia.
  - apply Forall_app. split; [done|]. constructor; [|done].
    split; [done|]. simpl.
    destruct (decide (m = "unknown"%string)); simpl; by eauto.
Qed.

Lemma first_loop_trace rs fr :
  frame_trace fnum em fr ->
  frame_trace fnum em (foldl (observe fnum now) fr rs).
Proof.
  revert fr. induction rs as [|r rs IH]; intros fr H; [done|].
  cbn [foldl]. by apply IH, observe_trace.
Qed.

Lemma check_departed_trace todo fr :
  frame_trace fnum em fr ->
  frame_trace fnum em (snd (fst (check_departed fnum now todo fr))).
Proof.
  revert fr. induction todo as [|[m s] todo IH]; intros fr H; simpl; [done|].
  destruct (decide (m ∈ current_names fr)).
  - specialize (IH fr H).
    by destruct (check_departed fnum now todo fr) as [[cs fr'] dn].
  - match goal with |- context [if ?c then _ else _] => destruct c end.
    + match goal with
      | |- context [check_departed fnum now todo ?f] =>
          assert (Hf : frame_trace fnum em f); [|specialize (IH f Hf);
            by destruct (check_departed fnum now todo f) as [[cs fr'] dn]]
      end.
      destruct H as (Hs & Hh & Hm & Hall).
      split; [exact Hs|]. destruct Hs as (_ & _ & Hmax & _).
      unfold_setters. rewrite Hmax, Hh, Hm. split_and!.
      * by rewrite history_after_snoc.
      * by rewrite metrics_after_snoc_other.
      * apply Forall_app. split; [done|]. by repeat constructor.
    + specialize (IH fr H).
      by destruct (check_departed fnum now todo fr) as [[cs fr'] dn].
Qed.

Lemma check_no_faces_trace rs fr :
  frame_trace fnum em fr ->
  frame_trace fnum em (check_no_faces fnum now rs fr).
Proof.
  intros H. unfold check_no_faces.
  match goal with |- context [if ?c then _ else _] => destruct c end;
    [|done].
  match goal with |- context [if ?c then _ else _] => destruct c end;
    [|done].
  destruct H as (Hs & Hh & Hm & Hall).
  split; [exact Hs|]. destruct Hs as (_ & _ & Hmax & _).
  unfold_setters. rewrite Hmax, Hh, Hm. split_and!.
  - by rewrite history_after_snoc.
  - by rewrite metrics_after_snoc_other.
  - apply Forall_app. split; [done|]. by repeat constructor.
Qed.

Lemma process_frame_trace rs :
  frame_trace fnum em (process_frame fnum now em rs).
Proof.
  unfold process_frame.
  set (fr0 := {| mgr := em; events := []; current_names := ∅ |}).
  assert (H0 : frame_trace fnum em fr0).
  { split_and!; [apply same_settings_refl|done| |done].
    by rewrite metrics_after_nil. }
  pose proof (check_departed_trace (current_state (mgr (foldl (observe fnum now) fr0 rs)))
                _ (first_loop_trace rs fr0 H0)) as H2.
  destruct (check_departed fnum now _ _) as [[cs fr2] dn]. simpl in H2.
  apply check_no_faces_trace.
  destruct H2 as (Hs & Hh & Hm & Hall). split_and!; done.
Qed.

End Trace.

Lemma call_trace em rs fn now :
  let em' := fst (process_recognition_results em rs fn now) in
  let evs := snd (process_recognition_results em rs fn now) in
  max_history em' = max_history em
  ∧ callbacks em' = callbacks em
  ∧ next_callback_id em' = next_callback_id em
  ∧ frame_count em'
    = match fn with Some _ => frame_count em | None => frame_count em + 1 end
  ∧ event_history em'
    = history_after (max_history em) (event_history em) evs
  ∧ accuracy_metrics em' = metrics_after (accuracy_metrics em) evs
  ∧ Forall (event_shape (event_label em fn)) evs.
Proof.
  unfold process_recognition_results. destruct fn as [k|]; simpl.
  - destruct (process_frame_trace k now em rs)
      as ((_ & _ & ? & ? & ? & ?) & ? & ? & ?).
    split_and!; done.
  - destruct (process_frame_trace (frame_count em + 1) now
                (set_frame_count (frame_count em + 1) em) rs)
      as ((_ & _ & ? & ? & ? & ?) & ? & ? & ?).
    split_and!; done.
Qed.

Lemma keep_last_snoc {A} m (l : list A) e :
  keep_last m (keep_last m l ++ [e]) = keep_last m (l ++ [e]).
Proof.
  unfold keep_last.
  rewrite <- (drop_app_le l [e] (length l - m)) by lia.
  rewrite drop_drop, !length_drop, !length_app. simpl. f_equal. lia.
Qed.

Lemma history_after_keep m h evs :
  (length h ≤ m)%nat -> history_after m h evs = keep_last m (h ++ evs).
Proof.
  intros Hlen. induction evs as [|e evs IH] using rev_ind.
  - unfold history_after, keep_last. simpl. rewrite app_nil_r.
    by replace (length h - m)%nat with 0%nat by lia.
  - rewrite history_after_snoc, IH, keep_last_snoc. by rewrite app_assoc.
Qed.

Lemma keep_last_length {A} m (l : list A) : (length (keep_last m l) ≤ m)%nat.
Proof. unfold keep_last. rewrite length_drop. lia. Qed.

(** The history is a bounded queue of everything emitted: after a call
    it holds the last [max_history] events of the former history followed
    by the events the call returned, and never more than [max_history]. *)
Theorem history_keeps_latest_events em rs fn now :
  (length (event_history em) ≤ max_history em)%nat ->
  let em' := fst (process_recognition_results em rs fn now) in
  let evs := snd (process_recognition_results em rs fn now) in
  event_history em' = keep_last (max_history em) (event_history em ++ evs)
  ∧ (length (event_history em') ≤ max_history em')%nat.
Proof.
  intros Hlen.
  destruct (call_trace em rs fn now) as (Hmax & _ & _ & _ & Hh & _).
  cbv zeta. rewrite Hmax, Hh, history_after_keep by done.
  split; [done|apply keep_last_length].
Qed.

(** [total_events] and its companions count the announce events only:
    a call adds the number of [PERSON_RECOGNIZED] events it returns to
    [recognized_count] and [true_positives], the number of
    [PERSON_UNKNOWN] events to [unknown_count] and [true_negatives], both
    to [total_events], and nothing for [PERSON_DEPARTED] or [NO_FACES]. *)
Theorem accuracy_counts_announcements_only em rs fn now :
  accuracy_metrics (fst (process_recognition_results em rs fn now))
  = metrics_after (accuracy_metrics em)
      (snd (process_recognition_results em rs fn now)).
Proof. by destruct (call_trace em rs fn now) as (_ & _ & _ & _ & _ & ? & _). Qed.

(** Every event a call returns carries the call's frame number (the
    argument, or the incremented internal counter when there is none) and
    the fields its type demands: [PERSON_RECOGNIZED] is never about the
    name "unknown", [PERSON_UNKNOWN] always is, [PERSON_DEPARTED] and
    [NO_FACES] have confidence 0 and no bounding box.  The internal
    counter advances only when no frame number is passed. *)
Theorem events_carry_call_label em rs fn now :
  Forall (event_shape (event_label em fn))
    (snd (process_recognition_results em rs fn now))
  ∧ frame_count (fst (process_recognition_results em rs fn now))
    = match fn with Some _ => frame_count em | None => frame_count em + 1 end.
Proof.
  by destruct (call_trace em rs fn now) as (_ & _ & _ & ? & _ & _ & ?).
Qed.

(** *** The accuracy report *)

Lemma metrics_after_consistent m evs :
  metrics_consistent m -> metrics_consistent (metrics_after m evs).
Proof.
  unfold metrics_consistent, metrics_after. simpl.
  intros (? & ? & ? & ? & ? & ? & ?). split_and!; lia.
Qed.

Lemma zero_metrics_consistent : metrics_consistent zero_metrics.
Proof. unfold metrics_consistent. simpl. split_and!; lia. Qed.

Lemma round2_100 q : (q == 100)%Q -> (round2 q == 100)%Q.
Proof.
  intros Hq. unfold round2, round_half_even.
  assert (Hq' : (q * 100 == 10000)%Q) by (rewrite Hq; reflexivity).
  assert (Hf : Qfloor (q * 100) = 10000).
  { rewrite Hq'. reflexivity. }
  rewrite Hf.
  assert (Hc : (q * 100 - inject_Z 10000 ?= 1 # 2)%Q = Lt).
  { apply Qlt_alt. rewrite Hq'. reflexivity. }
  rewrite Hc. reflexivity.
Qed.

Lemma report_all_or_nothing em :
  metrics_consistent (accuracy_metrics em) ->
  (report_accuracy (get_accuracy_report em)
   == if bool_decide (total_events (accuracy_metrics em) = 0%Z) then 0
      else 100)%Q.
Proof.
  intros (Htp & Htn & _ & _ & Htot & Hr & Hu). unfold get_accuracy_report.
  destruct (bool_decide (total_events (accuracy_metrics em) = 0)) eqn:Hz;
    [reflexivity|].
  apply bool_decide_eq_false in Hz. simpl.
  rewrite bool_decide_eq_true_2 by lia.
  apply round2_100. rewrite Htp, Htn, <- Htot.
  unfold Qdiv. rewrite Qmult_inv_r; [reflexivity|].
  intros H. apply Hz. unfold Qeq in H. simpl in H. lia.
Qed.

(** Whatever is fed to the manager, the accuracy it reports is 0 as long
    as nothing has been announced and 100 afterwards: every announce
    event is counted as correct, and nothing else is counted. *)
Theorem accuracy_report_all_or_nothing em rs fn now :
  metrics_consistent (accuracy_metrics em) ->
  let em' := fst (process_recognition_results em rs fn now) in
  metrics_consistent (accuracy_metrics em')
  ∧ (report_accuracy (get_accuracy_report em')
     == if bool_decide (total_events (accuracy_metrics em') = 0%Z) then 0
        else 100)%Q.
Proof.
  intros Hm. cbv zeta.
  assert (Hm' : metrics_consistent
                  (accuracy_metrics
                     (fst (process_recognition_results em rs fn now)))).
  { destruct (call_trace em rs fn now) as (_ & _ & _ & _ & _ & -> & _).
    by apply metrics_after_consistent. }
  split; [done|]. by apply report_all_or_nothing.
Qed.

(** *** Reading the history *)

(** [get_recent_events] returns the history newest first; a count of at
    least 0 keeps that many of the newest events (all of them when there
    are fewer), and a negative count [-k], being a slice bound, drops the
    [k] oldest events instead. *)
Theorem recent_events_newest_first em :
  get_recent_events em None = reverse (event_history em)
  ∧ (forall c, 0 ≤ c ->
       get_recent_events em (Some c)
       = reverse (keep_last (Z.to_nat c) (event_history em)))
  ∧ (forall c, c < 0 ->
       get_recent_events em (Some c)
       = reverse (drop (Z.to_nat (- c)) (event_history em))).
Proof.
  split_and!; [done| |].
  - intros c Hc. unfold get_recent_events, slice_to.
    rewrite bool_decide_eq_true_2 by done. apply take_reverse.
  - intros c Hc. unfold get_recent_events, slice_to.
    rewrite bool_decide_eq_false_2 by lia.
    rewrite take_reverse, length_reverse. f_equal.
    destruct (decide (Z.to_nat (- c) ≤ length (event_history em))%nat).
    + f_equal. lia.
    + rewrite !drop_ge; [done|lia|lia].
Qed.

Lemma count_events_total h :
  (count_events PERSON_RECOGNIZED h + count_events PERSON_UNKNOWN h
   + count_events PERSON_DEPARTED h + count_events NO_FACES h)%nat
  = length h.
Proof.
  unfold count_events. induction h as [|e h IH]; [done|].
  simpl. destruct (event_type e); simpl; lia.
Qed.

(** The numbers of [get_stats] add up: the per-type event counts sum to
    the size of the history, there is one count per event type, the
    number of tracked persons is the number of listed names, and the
    callback counts sum to the number of registered callbacks. *)
Theorem stats_counts_add_up em :
  let s := get_stats em in
  sum_list (map snd (event_counts s)) = event_history_size s
  ∧ map fst (event_counts s) = all_event_types
  ∧ currently_tracked s = length (tracked_people s)
  ∧ map fst (callback_counts s) = map fst (callbacks em)
  ∧ sum_list (map snd (callback_counts s)) = length (registered em).
Proof.
  simpl. split_and!.
  - rewrite <- (count_events_total (event_history em)). lia.
  - done.
  - by rewrite length_map.
  - induction (callbacks em) as [|[k ids] cbs IH]; [done|].
    simpl. by rewrite IH.
  - unfold registered. induction (callbacks em) as [|[k ids] cbs IH]; [done|].
    simpl. rewrite length_app, IH. done.
Qed.

(** *** Idle managers and reset *)

Lemma process_frame_idle fnum now em :
  current_state em = [] ->
  process_frame fnum now em []
  = check_no_faces fnum now [] (mkFrame em [] ∅).
Proof.
  intros Hcs. unfold process_frame. cbn [foldl mgr]. rewrite Hcs.
  cbn [check_departed remove_departed foldl mgr events current_names].
  do 2 f_equal. destruct em. simpl in *. by subst.
Qed.

Lemma set_frame_count_same em : set_frame_count (frame_count em) em = em.
Proof. by destruct em. Qed.

(** [NO_FACES] is not repeated: when nobody is tracked, the last event of
    the history is [NO_FACES] and the internal frame counter does not
    stand at 1 after the call, a call showing nobody returns no event and
    leaves the manager as it was, the frame counter apart. *)
Theorem no_faces_only_once em fn now e0 :
  current_state em = [] ->
  last (event_history em) = Some e0 ->
  event_type e0 = NO_FACES ->
  match fn with Some _ => frame_count em ≠ 1 | None => frame_count em ≠ 0 end ->
  process_recognition_results em [] fn now
  = (match fn with
     | Some _ => em
     | None => set_frame_count (frame_count em + 1) em
     end, []).
Proof.
  intros Hcs Hlast Hty Hfc. unfold process_recognition_results.
  destruct fn as [k|].
  - rewrite process_frame_idle by done. unfold check_no_faces.
    cbn [mgr]. rewrite Hcs. unfold _last_event_was_not_no_faces.
    rewrite Hlast, Hty. cbn [length].
    rewrite (bool_decide_eq_false_2 (frame_count em = 1)) by done.
    rewrite (bool_decide_eq_false_2 (NO_FACES ≠ NO_FACES))
      by (intros H; by apply H).
    done.
  - rewrite process_frame_idle by done. unfold check_no_faces.
    cbn [mgr set_frame_count current_state frame_count event_history].
    rewrite Hcs. unfold _last_event_was_not_no_faces.
    cbn [set_frame_count event_history].
    rewrite Hlast, Hty. cbn [length].
    rewrite (bool_decide_eq_false_2 (frame_count em + 1 = 1)) by lia.
    rewrite (bool_decide_eq_false_2 (NO_FACES ≠ NO_FACES))
      by (intros H; by apply H).
    done.
Qed.

(** With [max_history] 0 the history is always empty, so the once-only
    rule has nothing to look at: every call showing nobody while nobody
    is tracked returns a [NO_FACES] event. *)
Theorem no_history_no_faces_every_call em fn now :
  max_history em = 0%nat ->
  event_history em = [] ->
  current_state em = [] ->
  let em' := fst (process_recognition_results em [] fn now) in
  snd (process_recognition_results em [] fn now)
  = [mkEvent NO_FACES (now 0%nat) ""%string 0%Q None (event_label em fn)]
  ∧ max_history em' = 0%nat
  ∧ event_history em' = []
  ∧ current_state em' = [].
Proof.
  intros Hmax Hh Hcs. unfold process_recognition_results.
  destruct fn as [k|]; rewrite process_frame_idle by done;
    unfold check_no_faces, _last_event_was_not_no_faces, _add_to_history;
    cbn [mgr set_frame_count current_state frame_count event_history
         max_history set_event_history events fst snd length];
    rewrite Hcs, Hh, Hmax; cbn [length last]; rewrite orb_true_r;
    cbn; done.
Qed.

(** [reset] forgets the tracked persons, the history, the frame counter
    and the metrics, and keeps the thresholds and the registered
    callbacks; afterwards a call showing nobody returns exactly one
    [NO_FACES] event, and a person shown is tracked as new, without an
    event, whatever was known of that person before. *)
Theorem reset_starts_afresh em fn now :
  let em0 := reset em in
  callbacks em0 = callbacks em
  ∧ next_callback_id em0 = next_callback_id em
  ∧ debounce_frames em0 = debounce_frames em
  ∧ em_departed_frames em0 = em_departed_frames em
  ∧ max_history em0 = max_history em
  ∧ frame_count em0 = 0
  ∧ wf em0
  ∧ accuracy_metrics em0 = zero_metrics
  ∧ get_recent_events em0 None = []
  ∧ snd (process_recognition_results em0 [] fn now)
    = [mkEvent NO_FACES (now 0%nat) ""%string 0%Q None (event_label em0 fn)]
  ∧ forall n c b,
      process_recognition_results em0 [(n, c, b)] fn now
      = (set_current_state [(n, new_person n c b)]
           (match fn with
            | Some _ => em0
            | None => set_frame_count 1 em0
            end), []).
Proof.
  cbv zeta. split_and!; try done.
  - split; simpl; [apply NoDup_nil_2|done].
  - unfold process_recognition_results.
    destruct fn as [k|]; rewrite process_frame_idle by done;
      unfold check_no_faces, _last_event_was_not_no_faces;
      cbn [mgr set_frame_count current_state frame_count event_history
           reset length last]; rewrite orb_true_r; done.
  - intros n c b. unfold process_recognition_results.
    destruct fn as [k|]; unfold process_frame;
      cbn [foldl observe mgr reset set_frame_count current_state
           lookup_state app events current_names set_current_state
           check_departed];
      rewrite decide_True by set_solver; cbn; done.
Qed.

(** *** Who is tracked *)

Lemma see_all_Some d n rs o :
  is_Some o -> is_Some (fst (see_all d n rs o)).
Proof.
  revert o. induction rs as [|[[m c] b] rs IH]; intros o Ho; [done|].
  rewrite see_all_cons. destruct (decide (m = n)); [|by apply IH].
  simpl. by apply IH.
Qed.

Lemma see_all_elem d n rs o :
  n ∈ map obs_name rs -> is_Some (fst (see_all d n rs o)).
Proof.
  revert o. induction rs as [|[[m c] b] rs IH]; intros o Hin.
  - by apply elem_of_nil in Hin.
  - rewrite see_all_cons. destruct (decide (m = n)) as [->|Hne].
    + simpl. by apply see_all_Some.
    + apply IH. apply elem_of_cons in Hin as [Hin|Hin]; [|done].
      unfold obs_name in Hin. simpl in Hin. congruence.
Qed.

(** After a call every name in the results is tracked, and a name is
    tracked only if it is in the results or was tracked before the
    call. *)
Theorem frame_persons_are_tracked em rs fn now n :
  wf em ->
  let em' := fst (process_recognition_results em rs fn now) in
  (n ∈ map obs_name rs -> is_Some (lookup_state n (current_state em')))
  ∧ (is_Some (lookup_state n (current_state em')) ->
     n ∈ map obs_name rs ∨ is_Some (lookup_state n (current_state em))).
Proof.
  intros [Hnd _].
  destruct (call_person n em rs fn now Hnd) as (_ & _ & Hl & _).
  cbv zeta. rewrite Hl. unfold person_step.
  destruct (decide (n ∈ map obs_name rs)) as [Hin|Hout].
  - rewrite bool_decide_eq_true_2 by done. simpl.
    split; [intros _; by apply see_all_elem|by left].
  - rewrite bool_decide_eq_false_2 by done. simpl. split; [done|].
    intros Hs. right. unfold miss in Hs.
    destruct (lookup_state n (current_state em)); [by eexists|].
    simpl in Hs. by destruct Hs.
Qed.

(** *** Callbacks *)

Lemma add_callback_register ty em :
  callbacks (fst (add_callback ty em))
  = map (register ty (next_callback_id em)) (callbacks em).
Proof.
  unfold add_callback. simpl. apply map_ext. by intros [k ids].
Qed.

Lemma register_keys ty id cbs : map fst (map (register ty id) cbs) = map fst cbs.
Proof.
  induction cbs as [|[k ids] cbs IH]; [done|].
  simpl. rewrite IH. by destruct (decide (k = ty)).
Qed.

Lemma register_other ty id cbs :
  ty ∉ map fst cbs -> map (register ty id) cbs = cbs.
Proof.
  induction cbs as [|[k ids] cbs IH]; [done|]. simpl. intros Hnin.
  apply not_elem_of_cons in Hnin as [Hne Hnin].
  rewrite decide_False by done. by rewrite IH.
Qed.

Lemma register_ids ty id cbs :
  NoDup (map fst cbs) -> ty ∈ map fst cbs ->
  flat_map snd (map (register ty id) cbs) ≡ₚ id :: flat_map snd cbs.
Proof.
  induction cbs as [|[k ids] cbs IH]; simpl; intros Hnd Hin.
  - by apply elem_of_nil in Hin.
  - apply NoDup_cons in Hnd as [Hk Hnd].
    destruct (decide (k = ty)) as [->|Hne]; simpl.
    + rewrite register_other by done.
      rewrite <- app_assoc. simpl.
      by rewrite <- Permutation_middle.
    + apply elem_of_cons in Hin as [Hin|Hin]; [congruence|].
      rewrite IH by done. by rewrite <- Permutation_middle.
Qed.

Lemma callbacks_for_register ty id cbs ty' :
  ty ∈ map fst cbs ->
  callbacks_for ty' (map (register ty id) cbs)
  = callbacks_for ty' cbs ++ (if decide (ty' = ty) then [id] else []).
Proof.
  induction cbs as [|[k ids] cbs IH]; simpl; intros Hin.
  - by apply elem_of_nil in Hin.
  - destruct (decide (k = ty)) as [->|Hne]; simpl.
    + destruct (decide (ty = ty')) as [<-|Hne'].
      * by rewrite decide_True by done.
      * destruct (decide (ty' = ty)) as [->|_]; [done|].
        destruct (decide (ty ∈ map fst cbs)) as [Hin'|Hnin].
        -- by rewrite IH.
        -- rewrite register_other by done. by rewrite app_nil_r.
    + apply elem_of_cons in Hin as [Hin|Hin]; [congruence|].
      destruct (decide (k = ty')) as [->|_].
      * rewrite decide_False by congruence. by rewrite app_nil_r.
      * by apply IH.
Qed.

Lemma remove_id_None id ids : remove_id id ids = None <-> id ∉ ids.
Proof.
  induction ids as [|i ids IH]; simpl.
  - split; [intros _; apply not_elem_of_nil|done].
  - destruct (decide (i = id)) as [->|Hne].
    + split; [done|]. intros H. exfalso. apply H. by left.
    + rewrite not_elem_of_cons. destruct (remove_id id ids); simpl.
      * split; [done|]. intros [_ H]. by apply IH in H.
      * split; [|done]. intros _. split; [congruence|by apply IH].
Qed.

Lemma remove_id_Some id ids ids' :
  remove_id id ids = Some ids' -> ids ≡ₚ id :: ids'.
Proof.
  revert ids'. induction ids as [|i ids IH]; simpl; intros ids'; [done|].
  destruct (decide (i = id)) as [->|Hne].
  - by intros [= ->].
  - destruct (remove_id id ids) as [l|]; simpl; [|done].
    intros [= <-]. rewrite (IH l eq_refl). apply Permutation_swap.
Qed.

Lemma remove_id_snoc id ids :
  id ∉ ids -> remove_id id (ids ++ [id]) = Some ids.
Proof.
  induction ids as [|i ids IH]; simpl; intros Hnin.
  - by rewrite decide_True.
  - apply not_elem_of_cons in Hnin as [Hne Hnin].
    rewrite decide_False by congruence. by rewrite IH.
Qed.

Lemma remove_from_None id cbs :
  remove_from id cbs = None <-> id ∉ flat_map snd cbs.
Proof.
  induction cbs as [|[k ids] cbs IH]; simpl.
  - split; [intros _; apply not_elem_of_nil|done].
  - rewrite not_elem_of_app, <- remove_id_None, <- IH.
    destruct (remove_id id ids); simpl.
    + split; [done|]. by intros [? _].
    + destruct (remove_from id cbs); simpl; split; try done.
      by intros [_ ?].
Qed.

Lemma remove_from_Some id cbs cbs' :
  remove_from id cbs = Some cbs' ->
  map fst cbs' = map fst cbs
  ∧ flat_map snd cbs ≡ₚ id :: flat_map snd cbs'.
Proof.
  revert cbs'. induction cbs as [|[k ids] cbs IH]; simpl; intros cbs'; [done|].
  destruct (remove_id id ids) as [ids'|] eqn:Hid.
  - intros [= <-]. simpl. split; [done|].
    by rewrite (remove_id_Some _ _ _ Hid).
  - destruct (remove_from id cbs) as [l|]; simpl; [|done].
    intros [= <-]. destruct (IH l eq_refl) as [Hk Hp]. simpl.
    split; [by rewrite Hk|].
    rewrite Hp. by rewrite <- Permutation_middle.
Qed.

Lemma remove_from_register ty id cbs :
  NoDup (map fst cbs) -> ty ∈ map fst cbs -> id ∉ flat_map snd cbs ->
  remove_from id (map (register ty id) cbs) = Some cbs.
Proof.
  induction cbs as [|[k ids] cbs IH]; simpl; intros Hnd Hin Hnin.
  - by apply elem_of_nil in Hin.
  - apply NoDup_cons in Hnd as [Hk Hnd].
    apply not_elem_of_app in Hnin as [Hids Hrest].
    destruct (decide (k = ty)) as [->|Hne]; simpl.
    + rewrite remove_id_snoc by done. by rewrite register_other.
    + apply elem_of_cons in Hin as [Hin|Hin]; [congruence|].
      apply remove_id_None in Hids. rewrite Hids.
      by rewrite IH.
Qed.

Lemma fresh_id em :
  callbacks_wf em -> next_callback_id em ∉ registered em.
Proof.
  intros (_ & _ & _ & Hlt) Hin. rewrite Forall_forall in Hlt.
  apply Hlt in Hin. lia.
Qed.

Lemma init_callbacks_wf d t m : callbacks_wf (init d t m).
Proof.
  split_and!; simpl.
  - apply (bool_decide_unpack _). by vm_compute.
  - intros []; apply (bool_decide_unpack _); by vm_compute.
  - apply NoDup_nil_2.
  - done.
Qed.

(** Registering a callback and removing it again with the id that
    [add_callback] returned gives back the callbacks as they were;
    [remove_callback] reports [True], and the id is used up. *)
Theorem add_then_remove_callback em ty :
  callbacks_wf em ->
  snd (add_callback ty em) = next_callback_id em
  ∧ remove_callback (snd (add_callback ty em)) (fst (add_callback ty em))
    = (set_callbacks (callbacks em) (S (next_callback_id em)) em, true).
Proof.
  intros Hwf. split; [done|].
  pose proof (fresh_id em Hwf) as Hfresh.
  destruct Hwf as (Hnd & Hall & _).
  unfold remove_callback. rewrite add_callback_register.
  change (snd (add_callback ty em)) with (next_callback_id em).
  rewrite remove_from_register by done. done.
Qed.

(** [remove_callback] returns [True] exactly for an id that is
    registered; for any other id it returns [False] and changes
    nothing.  It never touches the counter of ids. *)
Theorem remove_callback_result em id :
  snd (remove_callback id em) = bool_decide (id ∈ registered em)
  ∧ (id ∉ registered em -> fst (remove_callback id em) = em)
  ∧ next_callback_id (fst (remove_callback id em)) = next_callback_id em.
Proof.
  unfold remove_callback, registered.
  destruct (remove_from id (callbacks em)) as [cbs|] eqn:Hrm; simpl.
  - split_and!; [|intros Hnin|done].
    + rewrite bool_decide_eq_true_2; [done|].
      destruct (decide (id ∈ flat_map snd (callbacks em))); [done|].
      apply remove_from_None in n. congruence.
    + apply remove_from_None in Hnin. congruence.
  - apply remove_from_None in Hrm.
    by rewrite bool_decide_eq_false_2.
Qed.

(** A newly registered callback is called after those registered before
    it, for events of its own type only. *)
Theorem new_callback_called_last em ty e :
  callbacks_wf em ->
  _trigger_callbacks (fst (add_callback ty em)) e
  = _trigger_callbacks em e
    ++ (if decide (event_type e = ty) then [(next_callback_id em, e)]
        else []).
Proof.
  intros (_ & Hall & _). unfold _trigger_callbacks.
  rewrite add_callback_register, callbacks_for_register by done.
  rewrite map_app. by destruct (decide (event_type e = ty)).
Qed.

(** Callback ids are never handed out twice: the id [add_callback]
    returns is not registered yet, each id is registered at most once,
    and after [remove_callback id] the id is registered nowhere; all this
    is kept by both operations. *)
Theorem callback_ids_are_fresh em ty id :
  callbacks_wf em ->
  (snd (add_callback ty em) ∉ registered em)
  ∧ callbacks_wf (fst (add_callback ty em))
  ∧ callbacks_wf (fst (remove_callback id em))
  ∧ id ∉ registered (fst (remove_callback id em)).
Proof.
  intros Hwf. pose proof (fresh_id em Hwf) as Hfresh.
  destruct Hwf as (Hnd & Hall & Hids & Hlt).
  split_and!; [done| | |].
  - unfold callbacks_wf, registered. rewrite add_callback_register.
    rewrite register_keys, register_ids by done.
    split_and!; [done|done| |].
    + by apply NoDup_cons.
    + simpl. constructor; [lia|].
      eapply Forall_impl; [exact Hlt|]. simpl. lia.
  - unfold remove_callback.
    destruct (remove_from id (callbacks em)) as [cbs|] eqn:Hrm; simpl;
      [|done].
    destruct (remove_from_Some _ _ _ Hrm) as [Hk Hp].
    unfold callbacks_wf, registered in *. simpl. rewrite Hk.
    rewrite Hp in Hids, Hlt.
    apply NoDup_cons in Hids as [_ Hids].
    apply Forall_cons in Hlt as [_ Hlt]. done.
  - unfold remove_callback.
    destruct (remove_from id (callbacks em)) as [cbs|] eqn:Hrm; simpl.
    + destruct (remove_from_Some _ _ _ Hrm) as [Hk Hp].
      unfold registered in *. simpl. rewrite Hp in Hids.
      by apply NoDup_cons in Hids as [? _].
    + by apply remove_from_None in Hrm.
Qed.

(** *** Instances *)

Lemma tracker_callbacks_wf : callbacks_wf Scenarios.tracker.
Proof. apply init_callbacks_wf. Defined.

Lemma history_keeps_latest_events_witness :
  event_history
    (fst (process_recognition_results Scenarios.tracker [] (Some 1)
            Scenarios.clock0))
  = keep_last 100 ([] ++ [Scenarios.no_faces_1]).
Proof.
  apply (history_keeps_latest_events Scenarios.tracker [] (Some 1)
           Scenarios.clock0).
  simpl. lia.
Defined.

Lemma accuracy_report_all_or_nothing_witness :
  metrics_consistent
    (accuracy_metrics
       (fst (process_recognition_results Scenarios.tracker_after_2
               [Scenarios.alice] (Some 3) Scenarios.clock0))).
Proof.
  refine (proj1 (accuracy_report_all_or_nothing Scenarios.tracker_after_2
                   [Scenarios.alice] (Some 3) Scenarios.clock0 _)).
  unfold metrics_consistent. split_and!; vm_compute;
    (reflexivity || discriminate).
Defined.

Lemma no_faces_only_once_witness :
  process_recognition_results Scenarios.tracker_idle [] (Some 2)
    Scenarios.clock0
  = (Scenarios.tracker_idle, []).
Proof.
  apply (no_faces_only_once Scenarios.tracker_idle (Some 2) Scenarios.clock0
           Scenarios.no_faces_1).
  - reflexivity.
  - reflexivity.
  - reflexivity.
  - vm_compute. lia.
Defined.

Lemma no_history_no_faces_every_call_witness :
  snd (process_recognition_results Scenarios.tracker_no_history [] (Some 7)
         Scenarios.clock0)
  = [mkEvent NO_FACES 0 ""%string 0%Q None 7].
Proof.
  apply (no_history_no_faces_every_call Scenarios.tracker_no_history
           (Some 7) Scenarios.clock0); reflexivity.
Defined.

Lemma frame_persons_are_tracked_witness :
  is_Some
    (lookup_state "Alice"
       (current_state
          (fst (process_recognition_results Scenarios.tracker
                  [Scenarios.alice] (Some 1) Scenarios.clock0)))).
Proof.
  apply (frame_persons_are_tracked Scenarios.tracker [Scenarios.alice]
           (Some 1) Scenarios.clock0 "Alice").
  - exact tracker_wf.
  - simpl. apply list_elem_of_here.
Defined.

Lemma add_then_remove_callback_witness :
  remove_callback 0%nat (fst (add_callback NO_FACES Scenarios.tracker))
  = (set_callbacks (callbacks Scenarios.tracker) 1 Scenarios.tracker, true).
Proof.
  apply (add_then_remove_callback Scenarios.tracker NO_FACES).
  exact tracker_callbacks_wf.
Defined.

Lemma new_callback_called_last_witness :
  _trigger_callbacks (fst (add_callback NO_FACES Scenarios.tracker))
    Scenarios.no_faces_1
  = [(0%nat, Scenarios.no_faces_1)].
Proof.
  apply (new_callback_called_last Scenarios.tracker NO_FACES
           Scenarios.no_faces_1).
  exact tracker_callbacks_wf.
Defined.

Lemma callback_ids_are_fresh_witness :
  callbacks_wf (fst (add_callback PERSON_DEPARTED Scenarios.tracker)).
Proof.
  apply (callback_ids_are_fresh Scenarios.tracker PERSON_DEPARTED 0%nat).
  exact tracker_callbacks_wf.
Defined.

End EventsQueriesFacts.

(* ===================================================================== *)
(** ** Further properties of the behavior module *)
(* ===================================================================== *)

Module BehaviorsWorkerFacts.

Import Behaviors.

Lemma action_eqb_refl a : action_eqb a a = true.
Proof.
  unfold action_eqb. rewrite !Qeq_bool_refl. by destruct (blocking a).
Qed.

Lemma actions_eqb_refl l : actions_eqb l l = true.
Proof.
  induction l as [|a l IH]; [done|]. simpl. by rewrite action_eqb_refl, IH.
Qed.

Lemma behavior_eqb_refl b : behavior_eqb b b = true.
Proof.
  unfold behavior_eqb.
  rewrite String.eqb_refl, actions_eqb_refl, Z.eqb_refl.
  by destruct (interruptible b).
Qed.



(** A behavior started on a free scheduler and run to its end is counted
    as executed once, leaves no current behavior and a dead thread, and
    the scheduler then accepts any behavior. *)
Theorem finished_behavior_frees_scheduler bm b w :
  current_behavior bm = None ->
  let bm1 := fst (execute_behavior bm b) in
  let bm2 := fst (_run_behavior w true b bm1) in
  snd (execute_behavior bm b) = true
  ∧ current_behavior bm2 = None
  ∧ is_executing bm2 = false
  ∧ behavior_thread bm2 = Some (mkThread b false)
  ∧ behaviors_executed bm2 = behaviors_executed bm + 1
  ∧ behaviors_interrupted bm2 = behaviors_interrupted bm
  ∧ forall b', snd (execute_behavior bm2 b') = true.
Proof.
  intros Hcur. unfold execute_behavior at 1 2 3.
  rewrite Hcur. cbn [fst snd _run_behavior].
  unfold finish_worker, start_behavior. simpl.
  rewrite behavior_eqb_refl. simpl. split_and!; done.
Qed.




Lemma finished_behavior_frees_scheduler_witness :
  snd (execute_behavior (init false) neutral_pose) = true.
Proof.
  apply (finished_behavior_frees_scheduler (init false) neutral_pose
           (mkWorkerEnv (fun _ => false) (fun _ => false))).
  reflexivity.
Defined.

End BehaviorsWorkerFacts.

(* ===================================================================== *)
(** ** Properties of the idle manager *)
(* ===================================================================== *)

Module IdleFacts.

Import Idle.

Lemma no_faces_at_timer t times im :
  active im = false ->
  (forall t', last_face_time im = Some t' -> (t <= t')%Q) ->
  Forall (fun t' => (t <= t')%Q) times ->
  active (no_faces_at times im) = false
  ∧ forall t', last_face_time (no_faces_at times im) = Some t' -> (t <= t')%Q.
Proof.
  intros Hact Hlast Hall. revert im Hact Hlast.
  induction Hall as [|t1 times Ht1 Hall IH]; intros im Hact Hlast; [done|].
  unfold no_faces_at. cbn [foldl]. apply IH.
  - unfold notify_no_faces. by destruct (last_face_time im).
  - unfold notify_no_faces. destruct (last_face_time im) eqn:Hl.
    + simpl. intros t' Ht'. apply Hlast. congruence.
    + simpl. by intros t' [= <-].
Qed.

Lemma no_faces_at_keeps times im :
  behavior_manager (no_faces_at times im) = behavior_manager im
  ∧ activation_threshold (no_faces_at times im) = activation_threshold im.
Proof.
  revert im. induction times as [|t1 times IH]; intros im; [done|].
  unfold no_faces_at. cbn [foldl].
  destruct (IH (notify_no_faces t1 im)) as [H1 H2].
  unfold no_faces_at in H1, H2. rewrite H1, H2.
  unfold notify_no_faces. by destruct (last_face_time im).
Qed.

(** Idle never comes early: once a face has been notified at time [t],
    no check made less than [activation_threshold] after [t] activates
    idle or asks anything of the scheduler, whatever notifications of an
    empty view have come in between. *)
Theorem idle_waits_for_threshold im t times now draw :
  Forall (fun t' => (t <= t')%Q) times ->
  (now - t < activation_threshold im)%Q ->
  let im' := _check_activation now draw
               (no_faces_at times (notify_face_detected t im)) in
  active im' = false
  ∧ behavior_manager im' = behavior_manager im.
Proof.
  intros Hall Hnow.
  set (im1 := notify_face_detected t im).
  assert (H1 : active im1 = false
               ∧ (forall t', last_face_time im1 = Some t' -> (t <= t')%Q)
               ∧ behavior_manager im1 = behavior_manager im
               ∧ activation_threshold im1 = activation_threshold im).
  { unfold im1, notify_face_detected, _deactivate_idle. simpl.
    destruct (active im) eqn:Ha; simpl; rewrite ?Ha; split_and!; try done.
    intros t' [= <-]. apply Qle_refl. }
  destruct H1 as (Ha1 & Hl1 & Hb1 & Ht1).
  destruct (no_faces_at_timer t times im1 Ha1 Hl1 Hall) as [Ha2 Hl2].
  destruct (no_faces_at_keeps times im1) as [Hb2 Ht2].
  cbv zeta. unfold _check_activation.
  destruct (last_face_time (no_faces_at times im1)) as [t'|] eqn:Hl;
    [|by rewrite Hb2, Hb1].
  assert (Hle : Qle_bool (activation_threshold (no_faces_at times im1))
                  (now - t') = false).
  { destruct (Qle_bool _ _) eqn:Hq; [|done]. exfalso.
    apply Qle_bool_iff in Hq. rewrite Ht2, Ht1 in Hq.
    specialize (Hl2 t' eq_refl).
    apply (Qlt_irrefl (activation_threshold im)).
    eapply Qle_lt_trans; [exact Hq|].
    eapply Qle_lt_trans; [|exact Hnow].
    apply Qplus_le_r. by apply Qopp_le_compat. }
  rewrite Hle. simpl. by rewrite Hb2, Hb1.
Qed.

(** A face ends idle at once and without a word to the scheduler: idle
    is off afterwards and the behavior manager is as before, so a drift
    under way is left to finish.  When idle was on, the timer is cleared
    with it, and no later check brings idle back until some notification
    sets the timer again; when idle was off, the timer restarts from the
    time of the face. *)
Theorem face_detection_stops_idle_quietly im now :
  let im' := notify_face_detected now im in
  active im' = false
  ∧ behavior_manager im' = behavior_manager im
  ∧ running im' = running im
  ∧ last_face_time im' = (if active im then None else Some now)
  ∧ (active im = true ->
     forall now' draw, _check_activation now' draw im' = im').
Proof.
  cbv zeta. unfold notify_face_detected, _deactivate_idle. simpl.
  destruct (active im) eqn:Ha; simpl; rewrite ?Ha; split_and!; done.
Qed.

(** The timer started by a notification of an empty view is not
    restarted by further such notifications. *)
Theorem no_faces_timer_not_restarted im t1 t2 :
  is_Some (last_face_time (notify_no_faces t1 im))
  ∧ notify_no_faces t2 (notify_no_faces t1 im) = notify_no_faces t1 im
  ∧ forall t0, last_face_time im = Some t0 -> notify_no_faces t1 im = im.
Proof.
  unfold notify_no_faces.
  destruct (last_face_time im) as [t0|] eqn:Hl; simpl; rewrite ?Hl;
    split_and!; by eauto.
Qed.

(** An idle drift never takes the robot from anybody: when a behavior
    of priority 1 or more is current, the request is refused and neither
    the scheduler nor the idle manager changes; so drifts do not pile up
    either. *)
Theorem idle_drift_never_preempts im draw cur :
  Behaviors.current_behavior (behavior_manager im) = Some cur ->
  1 ≤ Behaviors.priority cur ->
  Behaviors.execute_behavior (behavior_manager im)
    (Behaviors.create_idle_drift draw) = (behavior_manager im, false)
  ∧ _execute_idle_behavior draw im = im.
Proof.
  intros Hcur Hp.
  assert (H : Behaviors.execute_behavior (behavior_manager im)
                (Behaviors.create_idle_drift draw)
              = (behavior_manager im, false)).
  { unfold Behaviors.execute_behavior. rewrite Hcur.
    destruct (Behaviors.interruptible cur); simpl; [|done].
    by rewrite bool_decide_eq_true_2. }
  split; [done|]. unfold _execute_idle_behavior. rewrite H.
  destruct (active im); simpl; [|done]. by destruct im.
Qed.

(** Idle comes when due: a running manager whose timer was set at least
    [activation_threshold] ago turns idle on at its next turn and asks
    the scheduler for a drift, which a free scheduler starts. *)
Theorem idle_activates_when_due im t0 now draw :
  running im = true ->
  _stop_event im = false ->
  active im = false ->
  last_face_time im = Some t0 ->
  (activation_threshold im <= now - t0)%Q ->
  Behaviors.current_behavior (behavior_manager im) = None ->
  exists im',
    monitor_turn now draw im = Some im'
    ∧ active im' = true
    ∧ last_face_time im' = Some t0
    ∧ Behaviors.current_behavior (behavior_manager im')
      = Some (Behaviors.create_idle_drift draw).
Proof.
  intros Hrun Hstop Hact Hlast Hdue Hfree.
  unfold monitor_turn, _check_activation, _activate_idle,
    _execute_idle_behavior.
  rewrite Hrun, Hstop, Hact, Hlast. simpl.
  apply Qle_bool_iff in Hdue. rewrite Hdue. simpl.
  eexists. split; [reflexivity|]. simpl.
  unfold Behaviors.execute_behavior. rewrite Hfree. done.
Qed.

(** A stopped manager is quiet: after [stop] it is not running, the
    monitoring loop makes no turn, and the behavior manager has not been
    touched. *)
Theorem stopped_manager_stays_quiet im turns :
  running (stop im) = false
  ∧ _monitor_loop turns (stop im) = stop im
  ∧ behavior_manager (stop im) = behavior_manager im
  ∧ (running im = true -> active (stop im) = false).
Proof.
  assert (Hr : running (stop im) = false).
  { unfold stop, _deactivate_idle. destruct (running im) eqn:Hr; simpl;
      [|done]. by destruct (active im). }
  split_and!; [done| | |].
  - destruct turns as [|[now draw] turns]; [done|].
    simpl. unfold monitor_turn. by rewrite Hr.
  - unfold stop, _deactivate_idle. destruct (running im); simpl; [|done].
    by destruct (active im).
  - intros Hrun. unfold stop, _deactivate_idle. rewrite Hrun. simpl.
    by destruct (active im).
Qed.

Lemma idle_waits_for_threshold_witness :
  active (_check_activation 14 Scenarios.some_draw
            (no_faces_at [11; 12]%Q
               (notify_face_detected 10 Scenarios.idle_manager)))
  = false.
Proof.
  apply (idle_waits_for_threshold Scenarios.idle_manager 10 [11; 12]%Q 14
           Scenarios.some_draw).
  - repeat constructor; unfold Qle; simpl; lia.
  - unfold Qlt. simpl. lia.
Defined.

Lemma idle_drift_never_preempts_witness :
  _execute_idle_behavior Scenarios.some_draw Scenarios.idle_busy
  = Scenarios.idle_busy.
Proof.
  apply (idle_drift_never_preempts Scenarios.idle_busy Scenarios.some_draw
           Scenarios.filler).
  - reflexivity.
  - simpl. lia.
Defined.

Lemma idle_activates_when_due_witness :
  exists im',
    monitor_turn 5 Scenarios.some_draw Scenarios.idle_started = Some im'
    ∧ active im' = true
    ∧ last_face_time im' = Some 0%Q
    ∧ Behaviors.current_behavior (behavior_manager im')
      = Some (Behaviors.create_idle_drift Scenarios.some_draw).
Proof.
  apply (idle_activates_when_due Scenarios.idle_started 0 5
           Scenarios.some_draw).
  - reflexivity.
  - reflexivity.
  - reflexivity.
  - reflexivity.
  - unfold Qle. simpl. lia.
  - reflexivity.
Defined.

End IdleFacts.

(* ===================================================================== *)
(** ** Further properties of the greeting coordinator *)
(* ===================================================================== *)

Module CoordinationSessionFacts.

Import Events Coordination CoordinationFacts.

(** *** What every operation keeps *)

Section Preserved.

Variable env : nat -> GreetingEnv.
Variable P : GreetingCoordinator -> Prop.

Hypothesis P_pending : forall gc l, P gc -> P (set_pending_greetings l gc).
Hypothesis P_flag : forall gc b, P gc -> P (set_greeting_in_progress b gc).
Hypothesis P_greeting :
  forall genv gc e, P gc -> P (state_of (_execute_greeting genv gc e)).

Lemma process_pending_preserves fuel gc :
  P gc -> P (process_pending env fuel gc).
Proof.
  revert gc. induction fuel as [|fuel IH]; intros gc H; [done|].
  cbn [process_pending].
  destruct (pending_greetings gc) as [|x l]; [done|].
  destruct (first_not_greeted _ _) as [e|].
  - apply IH, P_flag, P_greeting, P_flag, P_pending, P_pending, H.
  - by apply P_pending.
Qed.

Lemma on_person_recognized_preserves gc e :
  P gc -> P (_on_person_recognized env gc e).
Proof.
  intros H. unfold _on_person_recognized.
  destruct (decide _); [done|].
  destruct (greeting_in_progress gc); [by apply P_pending|].
  unfold finish_greeting, _process_pending_greetings.
  apply process_pending_preserves, P_flag, P_greeting, P_flag, H.
Qed.

End Preserved.

(** *** One successful greeting *)








(** *** Statistics *)

Lemma stats_did c gc : stats_consistent gc -> stats_consistent (did c gc).
Proof. done. Qed.

Lemma stats_set_bm bm gc :
  stats_consistent gc -> stats_consistent (set_behavior_manager bm gc).
Proof. done. Qed.

Lemma stats_set_pending gc l :
  stats_consistent gc -> stats_consistent (set_pending_greetings l gc).
Proof. done. Qed.

Lemma stats_set_flag gc b :
  stats_consistent gc -> stats_consistent (set_greeting_in_progress b gc).
Proof. done. Qed.

Lemma mark_greeted_stats p t gc :
  stats_consistent gc -> stats_consistent (mark_greeted p t gc).
Proof.
  unfold stats_consistent, mark_greeted. simpl.
  intros (Ht & Hs & Hmax & Hmin). split_and!.
  - rewrite length_app. simpl. lia.
  - rewrite size_union_alt, size_singleton.
    assert (size (greeted_persons gc ∖ {[p]}) ≤ size (greeted_persons gc))%nat
      by (apply subseteq_size, subseteq_difference_l; done).
    lia.
  - apply Forall_app. split.
    + eapply Forall_impl; [exact Hmax|]. simpl. intros l Hl.
      destruct (Qle_bool t (max_latency gc)) eqn:Hq; [done|].
      eapply Qle_trans; [exact Hl|].
      apply Qlt_le_weak, Qnot_le_lt. intros H.
      apply Qle_bool_iff in H. congruence.
    + constructor; [|done].
      destruct (Qle_bool t (max_latency gc)) eqn:Hq.
      * by apply Qle_bool_iff.
      * apply Qle_refl.
  - destruct (min_latency gc) as [m|].
    + destruct Hmin as [Hne Hall]. split; [by destruct (latencies gc)|].
      apply Forall_app. split.
      * eapply Forall_impl; [exact Hall|]. simpl. intros l Hl.
        destruct (Qle_bool m t) eqn:Hq; [done|].
        eapply Qle_trans; [|exact Hl].
        apply Qlt_le_weak, Qnot_le_lt. intros H.
        apply Qle_bool_iff in H. congruence.
      * constructor; [|done].
        destruct (Qle_bool m t) eqn:Hq.
        -- by apply Qle_bool_iff.
        -- apply Qle_refl.
    + rewrite Hmin. simpl. split; [done|].
      constructor; [apply Qle_refl|done].
Qed.

Lemma execute_greeting_stats genv gc e :
  stats_consistent gc ->
  stats_consistent (state_of (_execute_greeting genv gc e)).
Proof.
  intros H. unfold _execute_greeting, speak.
  destruct (Behaviors.execute_behavior _ _) as [bm started]. simpl.
  destruct (use_enhanced_voice gc && adaptive_tts gc && greeting_selector gc);
    [|destruct (tts_manager gc)];
    destruct (speech genv); simpl;
    repeat first [ apply stats_did | apply stats_set_bm
                 | apply mark_greeted_stats ];
    exact H.
Qed.

Lemma init_stats_consistent em bm tts adaptive selector delay enhanced start :
  stats_consistent (init em bm tts adaptive selector delay enhanced start).
Proof.
  unfold stats_consistent. cbn [init total_greetings latencies
    greeted_persons max_latency min_latency length].
  rewrite size_empty. split_and!; done.
Qed.

(** The statistics stay in step whatever events arrive and whatever the
    speech backend does: [total_greetings] is the number of latency
    samples, no more persons are marked than greetings were counted,
    [max_latency] and [min_latency] bound every sample, and [get_stats]
    never reports an infinite minimum.  [reset_session] keeps all
    this. *)
Theorem statistics_stay_consistent env gc e :
  stats_consistent gc ->
  let gc' := _on_person_recognized env gc e in
  stats_consistent gc'
  ∧ stats_consistent (reset_session gc)
  ∧ Z.of_nat (unique_people_greeted (get_stats gc'))
    ≤ stats_total_greetings (get_stats gc')
  ∧ is_Some (min_latency_ms (get_stats gc')).
Proof.
  intros H. cbv zeta.
  assert (H' : stats_consistent (_on_person_recognized env gc e)).
  { by apply (on_person_recognized_preserves env stats_consistent
                stats_set_pending stats_set_flag execute_greeting_stats). }
  split_and!; [done| | |].
  - destruct H as (Ht & Hs & Hmax & Hmin).
    unfold stats_consistent, reset_session.
    cbn [total_greetings latencies greeted_persons max_latency min_latency
         set_pending_greetings set_greeted_persons].
    rewrite size_empty. split_and!; try done. lia.
  - by destruct H' as (_ & ? & _).
  - destruct H' as (_ & _ & _ & Hmin). unfold get_stats. simpl.
    case_bool_decide as Hl; simpl; [by eexists|].
    destruct (min_latency _) as [m|]; [by eexists|done].
Qed.

(** *** The coordinator and the tracker *)



(** *** Instances *)

Lemma coordinator_stats_consistent : stats_consistent Scenarios.coordinator.
Proof. apply init_stats_consistent. Defined.




Lemma statistics_stay_consistent_witness :
  stats_consistent
    (_on_person_recognized Scenarios.all_well Scenarios.coordinator
       Scenarios.alice_event).
Proof.
  apply (statistics_stay_consistent Scenarios.all_well Scenarios.coordinator
           Scenarios.alice_event).
  exact coordinator_stats_consistent.
Defined.


End CoordinationSessionFacts.
